(** * CelestiaWeb: planet presentation and viewer state

    A shallow embedding of the view-controller logic of the CelestiaWeb
    exoplanet explorer (JavaScript) and the properties its specification
    states about it.

    Conventions of the embedding.

    - A JavaScript number is modelled by a real number ([R]); rounding of
      IEEE doubles is not modelled.  A value of type [option R] is a number
      that may fail to be finite: [None] stands for [NaN] (and, in
      [Math_pow] only, for [Infinity]).
    - Indices and counters are integers ([Z]); array accesses are guarded
      the way the source guards them.
    - Strings are [string]; [toLowerCase] is modelled on ASCII letters.
    - The catalog arrays hold objects that viewer code never mutates, so an
      array of object references is modelled by the list of its records.
    - Each page variant of the repository is a [Module]; the globals a page
      declares with [let] become the fields of its state record.
    - A [TypeError] ends the listener, timer callback or [init] it is thrown
      in: what was assigned before it stays assigned, and the statements
      after it do not run. *)

From Stdlib Require Import Reals Lra Lia ZArith List String Ascii Bool.
From Stdlib Require Import DecimalString DecimalNat DecimalFacts.
Import ListNotations.

Set Implicit Arguments.

(** ** JavaScript helpers *)

Module JS.

Open Scope R_scope.

(** [v || d] on a numeric field: [undefined] and [0] are falsy. *)
Definition or_default (v : option R) (d : R) : R :=
  match v with
  | Some x => if Req_dec_T x 0 then d else x
  | None => d
  end.

(** [Math.pow(x, y)].  A positive base gives [exp (y * ln x)].  A zero
    base gives 0 for a positive exponent and 1 for exponent 0; for a
    negative exponent JavaScript gives [Infinity], which has no finite
    value.  A negative base with an exponent that is not an integer (the
    only exponents this program uses are 1/3 and -0.5) gives [NaN]. *)
Definition Math_pow (x y : R) : option R :=
  if Rlt_dec 0 x then Some (Rpower x y)
  else if Req_dec_T x 0 then
    if Rlt_dec 0 y then Some 0
    else if Req_dec_T y 0 then Some 1 else None
  else None.

(** [Math.round(x)]: the nearest integer, ties towards +infinity. *)
Definition Math_round (x : R) : Z := Zfloor (x + / 2).

(** [Math.max(0, Math.min(1, x))]. *)
Definition clamp01 (x : R) : R := Rmax 0 (Rmin 1 x).

Open Scope Z_scope.

(** [Math.ceil(n / d)] for a non-negative integer [n] and a positive
    integer [d]. *)
Definition Math_ceil_div (n d : Z) : Z := (n + d - 1) / d.

(** [a[i]]: [undefined] ([None]) outside the array. *)
Definition array_get {A : Type} (a : list A) (i : Z) : option A :=
  if (0 <=? i) && (i <? Z.of_nat (List.length a)) then nth_error a (Z.to_nat i)
  else None.

(** [a.length]. *)
Definition array_length {A : Type} (a : list A) : Z := Z.of_nat (List.length a).

(** A reference to an object of an array is modelled by the position of
    the object: the objects that [JSON.parse] puts in an array are pairwise
    distinct.  [filter_positions f a 0] lists the positions of
    [a.filter(f)], in order, and [find_position f a 0] is the position of
    [a.find(f)], or [None] for [undefined]; [a.indexOf] of such a reference
    is the position itself. *)
Fixpoint filter_positions {A : Type} (f : A -> bool) (a : list A) (i : Z)
  : list Z :=
  match a with
  | [] => []
  | x :: a' =>
      if f x then i :: filter_positions f a' (i + 1)
      else filter_positions f a' (i + 1)
  end.

Fixpoint find_position {A : Type} (f : A -> bool) (a : list A) (i : Z)
  : option Z :=
  match a with
  | [] => None
  | x :: a' => if f x then Some i else find_position f a' (i + 1)
  end.

(** [a.map((x, index) => f(x, index))], counting from [i]. *)
Fixpoint map_indexed {A B : Type} (f : A -> nat -> B) (a : list A) (i : nat)
  : list B :=
  match a with
  | [] => []
  | x :: a' => f x i :: map_indexed f a' (S i)
  end.

Open Scope string_scope.

Definition lower_ascii (c : ascii) : ascii :=
  let n := nat_of_ascii c in
  if (65 <=? n)%nat && (n <=? 90)%nat then ascii_of_nat (n + 32) else c.

(** [s.toLowerCase()] on ASCII text. *)
Fixpoint toLowerCase (s : string) : string :=
  match s with
  | EmptyString => EmptyString
  | String c s' => String (lower_ascii c) (toLowerCase s')
  end.

(** [s.includes(q)]: [q] occurs in [s] as a contiguous substring. *)
Fixpoint includes (s q : string) : bool :=
  String.prefix q s ||
  match s with
  | EmptyString => false
  | String _ s' => includes s' q
  end.

End JS.

Import JS.

(** ** Catalog records *)

Record EllipticalOrbit := {
  period : option R;
  semiMajorAxis : option R;
  eccentricity : R;
  inclination : R
}.

(** A planet record as the viewers read it ([koiData.json] schema).  The
    fields a viewer reads through [?.] or [||] are optional. *)
Record Planet := {
  id : string;
  name : string;
  system : string;
  type : string;
  radius : R;
  ellipticalOrbit : option EllipticalOrbit
}.

(** [planet.ellipticalOrbit?.semiMajorAxis] *)
Definition orbit_semiMajorAxis (planet : Planet) : option R :=
  match ellipticalOrbit planet with
  | Some o => semiMajorAxis o
  | None => None
  end.

(** [planet.ellipticalOrbit?.period] *)
Definition orbit_period (planet : Planet) : option R :=
  match ellipticalOrbit planet with
  | Some o => period o
  | None => None
  end.

(** [updatePlanetInfo(viewer)], which [showPlanet] of both comparison pages
    calls once the record is displayed, reads
    [currentPlanet.ellipticalOrbit.period.toFixed(3)] without [?.]: on a
    record that has no [ellipticalOrbit], or no [period] in it, this is a
    [TypeError].  (A missing [semiMajorAxis] only prints [NaN], and [radius]
    is a number in every record of this model.) *)
Definition updatePlanetInfo_throws (planet : Planet) : bool :=
  match orbit_period planet with
  | Some _ => false
  | None => true
  end.

(** ** Planet derivation engine (habitability heuristics, rotation rate) *)

Module Derivation.

Open Scope R_scope.

Definition calculateMockTemperature (planet : Planet) : option R :=
  if (name planet =? "Earth")%string then Some 288
  else if (name planet =? "Jupiter")%string then Some 165
  else
    let semiMajorAxis := or_default (orbit_semiMajorAxis planet) 1.0 in
    match Math_pow semiMajorAxis (-0.5) with
    | Some pw =>
        let temp := 288 * pw in
        Some (IZR (Math_round temp))
    | None => None
    end.

Definition calculateMockESI (planet : Planet) : option R :=
  if (name planet =? "Earth")%string then Some 1.0
  else if (name planet =? "Jupiter")%string then Some 0.15
  else
    let earthRadius := 6371 in
    let radiusRatio := radius planet / earthRadius in
    let semiMajorAxis := or_default (orbit_semiMajorAxis planet) 1.0 in
    let period := or_default (orbit_period planet) 365 in
    let radiusScore := 1 - Rabs ((radiusRatio - 1) / (radiusRatio + 1)) in
    let distanceScore :=
      1 - Rabs ((semiMajorAxis - 1) / (semiMajorAxis + 1)) in
    let periodScore := 1 - Rabs ((period - 365.25) / (period + 365.25)) in
    match Math_pow (radiusScore * distanceScore * periodScore) (1 / 3) with
    | Some esi => Some (clamp01 esi)
    | None => None
    end.

(** The per-frame angle of [animate], with the last factor (the source's
    [autoRotateMultiplier]) left as an argument. *)
Definition rotationSpeed (planet : Planet) (multiplier : R) : R :=
  let orbitalPeriodDays := or_default (orbit_period planet) 365 in
  let timeAccelerationBase := 3600 in
  let radiansPerEarthDay := (2 * PI) / orbitalPeriodDays in
  let framesPerSecond := 60 in
  let secondsPerDay := 86400 in
  let radiansPerFrame :=
    (radiansPerEarthDay / secondsPerDay)
    * (timeAccelerationBase / framesPerSecond) in
  radiansPerFrame * multiplier.

Definition autoRotateMultiplier (autoRotate : bool) : R :=
  if autoRotate then 100 else 1.

Definition finalRotationSpeed (planet : Planet) (autoRotate : bool) : R :=
  rotationSpeed planet (autoRotateMultiplier autoRotate).

(** *** The heuristics as the specification words them

    These two definitions follow the text of the specification, not the
    source; the theorems compare them with the functions above. *)

(** "1 - |(x - ref) / (x + ref)|" *)
Definition similarityScore (x ref : R) : R :=
  1 - Rabs ((x - ref) / (x + ref)).

(** [g] is the geometric mean of [a], [b] and [c]: the non-negative cube
    root of their product. *)
Definition geometricMean3 (g a b c : R) : Prop :=
  0 <= g /\ g ^ 3 = a * b * c.

(** The Earth similarity index of a record with the given radius (km),
    semi-major axis (AU) and period (days) that is named neither Earth nor
    Jupiter, the three scores being taken on the fields as they are. *)
Definition claimedESI (radiusKm a p : R) (e : R) : Prop :=
  exists g,
    geometricMean3 g
      (similarityScore (radiusKm / 6371) 1)
      (similarityScore a 1)
      (similarityScore p 365.25)
    /\ e = clamp01 g.

(** The equilibrium temperature without rounding. *)
Definition claimedTemperature (planet : Planet) : R :=
  if (name planet =? "Earth")%string then 288
  else if (name planet =? "Jupiter")%string then 165
  else 288 * Rpower (or_default (orbit_semiMajorAxis planet) 1.0) (-0.5).

End Derivation.

(** The two panels of a comparison page. *)
Inductive Side := LeftSide | RightSide.

(** The part of a rendered mesh the view logic reads and writes: the record
    it was built from ([mesh.userData]) and its rotation about the y axis. *)
Record Mesh := {
  userData : Planet;
  rotation_y : R
}.

(** [createPlanet(planetData)]: a fresh mesh, not yet rotated.  Geometry,
    texture and material are render-layer detail. *)
Definition createPlanet (planetData : Planet) : Mesh :=
  {| userData := planetData; rotation_y := 0%R |}.

(** ** Single-viewer explorer with the paginated planet list *)

Module Explorer.

(** A record of the legacy [exoplanetData.json] schema. *)
Record LegacyPlanet := {
  legacy_name : string;
  legacy_system : string;
  legacy_type : string;
  orbitalPeriod : option R
}.

Definition decimal (n : nat) : string :=
  DecimalString.NilZero.string_of_uint (Nat.to_uint n).

(** The conversion of the third source ("old format to new format"). *)
Definition convertLegacy (planet : LegacyPlanet) (index : nat) : Planet :=
  {| id := "FALLBACK_" ++ decimal index;
     name := legacy_name planet;
     system := legacy_system planet;
     type := legacy_type planet;
     radius :=
       if (legacy_type planet =? "Gas Giant")%string then 71492%R
       else if (legacy_type planet =? "Hot Jupiter")%string then 47898%R
       else if (legacy_type planet =? "Super-Earth")%string then 8967%R
       else 6371%R;
     ellipticalOrbit :=
       Some {| period := Some (or_default (orbitalPeriod planet) 365);
               semiMajorAxis := Some 1.0%R;
               eccentricity := 0.0%R;
               inclination := 89.0%R |} |}.

(** The built-in record of the innermost [catch]. *)
Definition examplePlanet : Planet :=
  {| id := "EXAMPLE_01";
     name := "Example Planet";
     system := "Unknown System";
     type := "Rocky";
     radius := 6371%R;
     ellipticalOrbit :=
       Some {| period := Some 365.25%R;
               semiMajorAxis := Some 1.0%R;
               eccentricity := 0.0167%R;
               inclination := 0.0%R |} |}.

(** [loadPlanetData()], as a function of what each [fetch] followed by
    [json()] yields: [None] when it throws.  The result is the new value of
    the global [planets]. *)
Definition loadPlanetData (koiData keplerData : option (list Planet))
    (exoplanetData : option (list LegacyPlanet)) : list Planet :=
  match koiData with
  | Some data => data
  | None =>
      match keplerData with
      | Some data => data
      | None =>
          match exoplanetData with
          | Some fallbackData => map_indexed convertLegacy fallbackData 0
          | None => [examplePlanet]
          end
      end
  end.

(** The globals of the page. *)
Record State := {
  planets : list Planet;
  currentPlanetIndex : Z;
  currentPlanet : option Planet;
  planetMesh : option Mesh;
  autoRotate : bool;
  currentPage : Z;
  planetsPerPage : Z;
  filteredPlanets : list Planet;
  currentFilter : string
}.

Definition set_page (s : State) (page : Z) : State :=
  {| planets := planets s;
     currentPlanetIndex := currentPlanetIndex s;
     currentPlanet := currentPlanet s;
     planetMesh := planetMesh s;
     autoRotate := autoRotate s;
     currentPage := page;
     planetsPerPage := planetsPerPage s;
     filteredPlanets := filteredPlanets s;
     currentFilter := currentFilter s |}.

Definition set_perPage (s : State) (n : Z) : State :=
  {| planets := planets s;
     currentPlanetIndex := currentPlanetIndex s;
     currentPlanet := currentPlanet s;
     planetMesh := planetMesh s;
     autoRotate := autoRotate s;
     currentPage := currentPage s;
     planetsPerPage := n;
     filteredPlanets := filteredPlanets s;
     currentFilter := currentFilter s |}.

Definition set_filter (s : State) (f : string) (l : list Planet) : State :=
  {| planets := planets s;
     currentPlanetIndex := currentPlanetIndex s;
     currentPlanet := currentPlanet s;
     planetMesh := planetMesh s;
     autoRotate := autoRotate s;
     currentPage := currentPage s;
     planetsPerPage := planetsPerPage s;
     filteredPlanets := l;
     currentFilter := f |}.

Definition set_selection (s : State) (index : Z) (p : option Planet)
    (m : option Mesh) : State :=
  {| planets := planets s;
     currentPlanetIndex := index;
     currentPlanet := p;
     planetMesh := m;
     autoRotate := autoRotate s;
     currentPage := currentPage s;
     planetsPerPage := planetsPerPage s;
     filteredPlanets := filteredPlanets s;
     currentFilter := currentFilter s |}.

Definition set_autoRotate (s : State) (b : bool) : State :=
  {| planets := planets s;
     currentPlanetIndex := currentPlanetIndex s;
     currentPlanet := currentPlanet s;
     planetMesh := planetMesh s;
     autoRotate := b;
     currentPage := currentPage s;
     planetsPerPage := planetsPerPage s;
     filteredPlanets := filteredPlanets s;
     currentFilter := currentFilter s |}.

Open Scope Z_scope.

Definition showPlanet (s : State) (index : Z) : State :=
  if (index <? 0) || (index >=? array_length (planets s)) then s
  else
    let planet := array_get (planets s) index in
    set_selection s index planet (option_map createPlanet planet).

Definition nextPlanet (s : State) : State :=
  if currentPlanetIndex s <? array_length (planets s) - 1
  then showPlanet s (currentPlanetIndex s + 1)
  else s.

Definition previousPlanet (s : State) : State :=
  if currentPlanetIndex s >? 0
  then showPlanet s (currentPlanetIndex s - 1)
  else s.

Definition toggleAutoRotate (s : State) : State :=
  set_autoRotate s (negb (autoRotate s)).

(** One frame of [animate]: the planet mesh turns by the per-frame angle. *)
Definition animate (s : State) : State :=
  match planetMesh s, currentPlanet s with
  | Some mesh, Some planet =>
      let finalRotationSpeed :=
        Derivation.finalRotationSpeed planet (autoRotate s) in
      set_selection s (currentPlanetIndex s) (currentPlanet s)
        (Some {| userData := userData mesh;
                 rotation_y := (rotation_y mesh + finalRotationSpeed)%R |})
  | _, _ => s
  end.

(** [applyFilter()] *)
Definition applyFilter (s : State) : State :=
  if (currentFilter s =? "all")%string
  then set_filter s (currentFilter s) (planets s)
  else set_filter s (currentFilter s)
         (filter (fun planet => (type planet =? currentFilter s)%string)
                 (planets s)).

(** [populatePlanetSelect()]: the list starts unfiltered. *)
Definition populatePlanetSelect (s : State) : State :=
  set_filter s (currentFilter s) (planets s).

(** The four listeners of [setupPaginationControls]. *)
Definition prevPage (s : State) : State :=
  if currentPage s >? 0 then set_page s (currentPage s - 1) else s.

Definition nextPage (s : State) : State :=
  let maxPages :=
    Math_ceil_div (array_length (filteredPlanets s)) (planetsPerPage s) in
  if currentPage s <? maxPages - 1 then set_page s (currentPage s + 1) else s.

Definition changeTypeFilter (s : State) (value : string) : State :=
  applyFilter (set_page (set_filter s value (filteredPlanets s)) 0).

(** [value] is [parseInt] of the chosen option (50, 100 or 200). *)
Definition changePlanetsPerPage (s : State) (value : Z) : State :=
  set_page (set_perPage s value) 0.

(** The page after [init]: globals as declared, the catalog loaded, the
    list populated and the first planet shown. *)
Definition init (koiData keplerData : option (list Planet))
    (exoplanetData : option (list LegacyPlanet)) : State :=
  let loaded :=
    {| planets := loadPlanetData koiData keplerData exoplanetData;
       currentPlanetIndex := 0;
       currentPlanet := None;
       planetMesh := None;
       autoRotate := true;
       currentPage := 0;
       planetsPerPage := 100;
       filteredPlanets := [];
       currentFilter := "all" |} in
  let s := populatePlanetSelect loaded in
  if array_length (planets s) >? 0 then showPlanet s 0 else s.

(** What the user can do to the paginated list. *)
Inductive PageEvent :=
| ClickPrevPage
| ClickNextPage
| SelectTypeFilter (value : string)
| SelectPerPage (value : Z).

Definition handlePage (s : State) (e : PageEvent) : State :=
  match e with
  | ClickPrevPage => prevPage s
  | ClickNextPage => nextPage s
  | SelectTypeFilter value => changeTypeFilter s value
  | SelectPerPage value => changePlanetsPerPage s value
  end.

(** The page index is a valid page of the filtered list (page 0 when the
    list is empty). *)
Definition pageInRange (s : State) : Prop :=
  0 <= currentPage s /\
  (filteredPlanets s = [] -> currentPage s = 0) /\
  (filteredPlanets s <> [] ->
   currentPage s
   <= Math_ceil_div (array_length (filteredPlanets s)) (planetsPerPage s) - 1).

(** The page sizes the size selector offers are positive. *)
Definition positiveSize (e : PageEvent) : Prop :=
  match e with
  | SelectPerPage value => 0 < value
  | _ => True
  end.

Definition runPage (s : State) (events : list PageEvent) : State :=
  fold_left handlePage events s.

End Explorer.

(** ** Dual-viewer comparison page with the text search box *)

Module Compare.

Record Viewer := {
  side : Side;
  currentPlanetIndex : Z;
  currentPlanet : option Planet;
  planetMesh : option Mesh;
  autoRotate : bool
}.

Record Page := {
  planets : list Planet;
  leftViewer : Viewer;
  rightViewer : Viewer;
  lastFocusedViewer : Side
}.

(** [loadPlanetData()] of this page: the same three sources as the
    explorer, but the innermost [catch] leaves the catalog empty. *)
Definition loadPlanetData (koiData keplerData : option (list Planet))
    (exoplanetData : option (list Explorer.LegacyPlanet)) : list Planet :=
  match koiData with
  | Some data => data
  | None =>
      match keplerData with
      | Some data => data
      | None =>
          match exoplanetData with
          | Some fallbackData =>
              map_indexed Explorer.convertLegacy fallbackData 0
          | None => []
          end
      end
  end.

Open Scope Z_scope.

Definition showPlanet (planets : list Planet) (viewer : Viewer) (index : Z)
  : Viewer :=
  if (index <? 0) || (index >=? array_length planets) then viewer
  else
    let planet := array_get planets index in
    {| side := side viewer;
       currentPlanetIndex := index;
       currentPlanet := planet;
       planetMesh := option_map createPlanet planet;
       autoRotate := autoRotate viewer |}.

Definition nextPlanet (planets : list Planet) (viewer : Viewer) : Viewer :=
  if currentPlanetIndex viewer <? array_length planets - 1
  then showPlanet planets viewer (currentPlanetIndex viewer + 1)
  else viewer.

Definition previousPlanet (planets : list Planet) (viewer : Viewer)
  : Viewer :=
  if currentPlanetIndex viewer >? 0
  then showPlanet planets viewer (currentPlanetIndex viewer - 1)
  else viewer.

Definition set_autoRotate (viewer : Viewer) (b : bool) : Viewer :=
  {| side := side viewer;
     currentPlanetIndex := currentPlanetIndex viewer;
     currentPlanet := currentPlanet viewer;
     planetMesh := planetMesh viewer;
     autoRotate := b |}.

Definition toggleAutoRotate (viewer : Viewer) : Viewer :=
  set_autoRotate viewer (negb (autoRotate viewer)).

(** The predicate of the [input] listener of [setupSearch]; [query] is
    already in lower case. *)
Definition matchesQuery (query : string) (planet : Planet) : bool :=
  includes (toLowerCase (name planet)) query
  || includes (toLowerCase (id planet)) query
  || includes (toLowerCase (system planet)) query.

(** The predicate of the [keypress] listener: name or id only. *)
Definition matchesNameOrId (query : string) (planet : Planet) : bool :=
  includes (toLowerCase (name planet)) query
  || includes (toLowerCase (id planet)) query.

(** The [input] listener of [setupSearch(viewer)]; [value] is the text of
    the search box. *)
Definition searchInput (planets : list Planet) (viewer : Viewer)
    (value : string) : Viewer :=
  let query := toLowerCase value in
  if (query =? "")%string then viewer
  else
    let matches := filter_positions (matchesQuery query) planets 0 in
    if array_length matches =? 1 then
      match matches with
      | index :: _ => showPlanet planets viewer index
      | [] => viewer
      end
    else viewer.

(** The [keypress] listener of [setupSearch(viewer)]. *)
Definition searchKeypress (planets : list Planet) (viewer : Viewer)
    (key value : string) : Viewer :=
  if (key =? "Enter")%string then
    let query := toLowerCase value in
    match find_position (matchesNameOrId query) planets 0 with
    | Some index => showPlanet planets viewer index
    | None => viewer
    end
  else viewer.

Definition syncRotation (pg : Page) : Page :=
  let newState := negb (autoRotate (leftViewer pg)) in
  {| planets := planets pg;
     leftViewer := set_autoRotate (leftViewer pg) newState;
     rightViewer := set_autoRotate (rightViewer pg) newState;
     lastFocusedViewer := lastFocusedViewer pg |}.

(** The viewer objects as declared at the top of the script. *)
Definition leftViewer0 : Viewer :=
  {| side := LeftSide;
     currentPlanetIndex := 0;
     currentPlanet := None;
     planetMesh := None;
     autoRotate := true |}.

Definition rightViewer0 : Viewer :=
  {| side := RightSide;
     currentPlanetIndex := 1;
     currentPlanet := None;
     planetMesh := None;
     autoRotate := true |}.

(** Whether [showPlanet(viewer, index)] ends in the [TypeError] of
    [updatePlanetInfo]; the record at [index] is displayed by then. *)
Definition showPlanet_throws (planets : list Planet) (index : Z) : bool :=
  match array_get planets index with
  | Some planet => updatePlanetInfo_throws planet
  | None => false
  end.

(** Whether [init] gets past [showPlanet(leftViewer, 0)]. *)
Definition initAborted (planets : list Planet) : bool :=
  (array_length planets >? 0) && showPlanet_throws planets 0.

(** The page after [init]: the left viewer shows the first planet of the
    catalog and the right viewer the second, when there are such; when
    displaying the first planet throws, [init] stops there and the right
    viewer stays as declared. *)
Definition init (koiData keplerData : option (list Planet))
    (exoplanetData : option (list Explorer.LegacyPlanet)) : Page :=
  let planets := loadPlanetData koiData keplerData exoplanetData in
  {| planets := planets;
     leftViewer :=
       if array_length planets >? 0 then showPlanet planets leftViewer0 0
       else leftViewer0;
     rightViewer :=
       if initAborted planets then rightViewer0
       else if array_length planets >? 1
            then showPlanet planets rightViewer0 1
            else rightViewer0;
     lastFocusedViewer := LeftSide |}.

End Compare.

(** ** Dual-viewer comparison page with per-viewer categories *)

Module CategoryCompare.

Record Viewer := {
  side : Side;
  currentPlanetIndex : Z;
  currentPlanet : option Planet;
  planetMesh : option Mesh;
  autoRotate : bool;
  availablePlanets : list Planet
}.

Record Page := {
  solarSystemPlanets : list Planet;
  exoplanets : list Planet;
  planets : list Planet;
  leftViewer : Viewer;
  rightViewer : Viewer;
  lastFocusedViewer : Side
}.

(** The viewer objects as declared at the top of the script. *)
Definition leftViewer0 : Viewer :=
  {| side := LeftSide;
     currentPlanetIndex := 0;
     currentPlanet := None;
     planetMesh := None;
     autoRotate := true;
     availablePlanets := [] |}.

Definition rightViewer0 : Viewer :=
  {| side := RightSide;
     currentPlanetIndex := 1;
     currentPlanet := None;
     planetMesh := None;
     autoRotate := true;
     availablePlanets := [] |}.

Definition page0 : Page :=
  {| solarSystemPlanets := [];
     exoplanets := [];
     planets := [];
     leftViewer := leftViewer0;
     rightViewer := rightViewer0;
     lastFocusedViewer := LeftSide |}.

Definition set_data (pg : Page) (solar exo all : list Planet) : Page :=
  {| solarSystemPlanets := solar;
     exoplanets := exo;
     planets := all;
     leftViewer := leftViewer pg;
     rightViewer := rightViewer pg;
     lastFocusedViewer := lastFocusedViewer pg |}.

Definition set_left (pg : Page) (v : Viewer) : Page :=
  {| solarSystemPlanets := solarSystemPlanets pg;
     exoplanets := exoplanets pg;
     planets := planets pg;
     leftViewer := v;
     rightViewer := rightViewer pg;
     lastFocusedViewer := lastFocusedViewer pg |}.

Definition set_right (pg : Page) (v : Viewer) : Page :=
  {| solarSystemPlanets := solarSystemPlanets pg;
     exoplanets := exoplanets pg;
     planets := planets pg;
     leftViewer := leftViewer pg;
     rightViewer := v;
     lastFocusedViewer := lastFocusedViewer pg |}.

Definition viewerOf (pg : Page) (s : Side) : Viewer :=
  match s with
  | LeftSide => leftViewer pg
  | RightSide => rightViewer pg
  end.

Definition set_viewer (pg : Page) (s : Side) (v : Viewer) : Page :=
  match s with
  | LeftSide => set_left pg v
  | RightSide => set_right pg v
  end.

(** [loadPlanetData()]: both fetches sit in one [try]; when either throws,
    the [catch] empties all three globals. *)
Definition loadPlanetData (solarResponse exoResponse : option (list Planet))
    (pg : Page) : Page :=
  match solarResponse, exoResponse with
  | Some solar, Some exo => set_data pg solar exo exo
  | _, _ => set_data pg [] [] []
  end.

Definition getPlanetsForCategory (pg : Page) (category : string)
  : list Planet :=
  if (category =? "earth")%string then
    filter (fun p => (name p =? "Earth")%string) (solarSystemPlanets pg)
  else if (category =? "jupiter")%string then
    filter (fun p => (name p =? "Jupiter")%string) (solarSystemPlanets pg)
  else if (category =? "exoplanets")%string then exoplanets pg
  else exoplanets pg.

Open Scope Z_scope.

Definition showPlanet (viewer : Viewer) (index : Z) : Viewer :=
  if (index <? 0) || (index >=? array_length (availablePlanets viewer))
  then viewer
  else
    let planet := array_get (availablePlanets viewer) index in
    {| side := side viewer;
       currentPlanetIndex := index;
       currentPlanet := planet;
       planetMesh := option_map createPlanet planet;
       autoRotate := autoRotate viewer;
       availablePlanets := availablePlanets viewer |}.

Definition set_available (viewer : Viewer) (l : list Planet) : Viewer :=
  {| side := side viewer;
     currentPlanetIndex := currentPlanetIndex viewer;
     currentPlanet := currentPlanet viewer;
     planetMesh := planetMesh viewer;
     autoRotate := autoRotate viewer;
     availablePlanets := l |}.

Definition set_index (viewer : Viewer) (index : Z) : Viewer :=
  {| side := side viewer;
     currentPlanetIndex := index;
     currentPlanet := currentPlanet viewer;
     planetMesh := planetMesh viewer;
     autoRotate := autoRotate viewer;
     availablePlanets := availablePlanets viewer |}.

Definition set_autoRotate (viewer : Viewer) (b : bool) : Viewer :=
  {| side := side viewer;
     currentPlanetIndex := currentPlanetIndex viewer;
     currentPlanet := currentPlanet viewer;
     planetMesh := planetMesh viewer;
     autoRotate := b;
     availablePlanets := availablePlanets viewer |}.

Definition set_mesh (viewer : Viewer) (m : option Mesh) : Viewer :=
  {| side := side viewer;
     currentPlanetIndex := currentPlanetIndex viewer;
     currentPlanet := currentPlanet viewer;
     planetMesh := m;
     autoRotate := autoRotate viewer;
     availablePlanets := availablePlanets viewer |}.

Definition changePlanetCategory (pg : Page) (viewer : Viewer)
    (category : string) : Viewer :=
  let categoryPlanets := getPlanetsForCategory pg category in
  let viewer := set_index (set_available viewer categoryPlanets) 0 in
  if array_length categoryPlanets >? 0 then showPlanet viewer 0 else viewer.

Definition nextPlanet (viewer : Viewer) : Viewer :=
  if currentPlanetIndex viewer <? array_length (availablePlanets viewer) - 1
  then showPlanet viewer (currentPlanetIndex viewer + 1)
  else viewer.

Definition previousPlanet (viewer : Viewer) : Viewer :=
  if currentPlanetIndex viewer >? 0
  then showPlanet viewer (currentPlanetIndex viewer - 1)
  else viewer.

Definition toggleAutoRotate (viewer : Viewer) : Viewer :=
  set_autoRotate viewer (negb (autoRotate viewer)).

(** The body of the [change] listener of [setupSearch(viewer)].  The
    options of the dropdown were filled from the global [planets], one per
    record, with the record's position in [planets] as value;
    [selectedIndex] is [parseInt] of the chosen value.  The listener fires
    only when the user can operate the dropdown, that is while it is
    displayed: [CategoryLive.deliverable] below. *)
Definition searchChange (viewer : Viewer) (selectedIndex : Z) : Viewer :=
  showPlanet viewer selectedIndex.

Definition syncRotation (pg : Page) : Page :=
  let newState := negb (autoRotate (leftViewer pg)) in
  set_right (set_left pg (set_autoRotate (leftViewer pg) newState))
            (set_autoRotate (rightViewer pg) newState).

Definition setFocus (pg : Page) (s : Side) : Page :=
  {| solarSystemPlanets := solarSystemPlanets pg;
     exoplanets := exoplanets pg;
     planets := planets pg;
     leftViewer := leftViewer pg;
     rightViewer := rightViewer pg;
     lastFocusedViewer := s |}.

(** One viewer's share of a frame of [animate]. *)
Definition animateViewer (viewer : Viewer) : Viewer :=
  match planetMesh viewer, currentPlanet viewer with
  | Some mesh, Some planet =>
      let finalRotationSpeed :=
        Derivation.finalRotationSpeed planet (autoRotate viewer) in
      set_mesh viewer
        (Some {| userData := userData mesh;
                 rotation_y := (rotation_y mesh + finalRotationSpeed)%R |})
  | _, _ => viewer
  end.

Definition animate (pg : Page) : Page :=
  set_right (set_left pg (animateViewer (leftViewer pg)))
            (animateViewer (rightViewer pg)).

(** [handleKeyboard(event)]: the key goes to the viewer focused last. *)
Definition handleKeyboard (pg : Page) (code : string) : Page :=
  let s := lastFocusedViewer pg in
  let viewer := viewerOf pg s in
  if (code =? "ArrowLeft")%string then set_viewer pg s (previousPlanet viewer)
  else if (code =? "ArrowRight")%string then set_viewer pg s (nextPlanet viewer)
  else if (code =? "Space")%string then set_viewer pg s (toggleAutoRotate viewer)
  else pg.

(** The events the listeners of [setupEventListeners] react to (camera and
    panel-visibility buttons change nothing that is modelled here).
    [handle] is what the listener of an event does; which events the page
    can receive, and when the timer of [init] runs, is the matter of
    [CategoryLive]. *)
Inductive Event :=
| ClickPrev (s : Side)
| ClickNext (s : Side)
| ClickAutoRotate (s : Side)
| ChangeCategory (s : Side) (category : string)
| SearchChange (s : Side) (selectedIndex : Z)
| ClickSyncRotation
| ClickViewer (s : Side)
| KeyDown (code : string)
| Frame.

Definition handle (pg : Page) (e : Event) : Page :=
  match e with
  | ClickPrev s => set_viewer pg s (previousPlanet (viewerOf pg s))
  | ClickNext s => set_viewer pg s (nextPlanet (viewerOf pg s))
  | ClickAutoRotate s => set_viewer pg s (toggleAutoRotate (viewerOf pg s))
  | ChangeCategory s category =>
      set_viewer pg s (changePlanetCategory pg (viewerOf pg s) category)
  | SearchChange s selectedIndex =>
      set_viewer pg s (searchChange (viewerOf pg s) selectedIndex)
  | ClickSyncRotation => syncRotation pg
  | ClickViewer s => setFocus pg s
  | KeyDown code => handleKeyboard pg code
  | Frame => animate pg
  end.

(** [init()] up to the point where it arms its 100 ms timer. *)
Definition init (solarResponse exoResponse : option (list Planet)) : Page :=
  let pg := loadPlanetData solarResponse exoResponse page0 in
  let pg :=
    set_left pg
      (set_available (leftViewer pg) (getPlanetsForCategory pg "earth")) in
  set_right pg
    (set_available (rightViewer pg) (getPlanetsForCategory pg "jupiter")).

(** Whether [changePlanetCategory(viewer, category)] ends in the
    [TypeError] of [updatePlanetInfo]: it shows the first record of a
    non-empty category, and all its assignments are made by then. *)
Definition changePlanetCategory_throws (pg : Page) (category : string)
  : bool :=
  match getPlanetsForCategory pg category with
  | first :: _ => updatePlanetInfo_throws first
  | [] => false
  end.

(** The callback of that timer: both viewers show their default category;
    when the left viewer's call throws, the callback ends there and the
    right viewer is left as it was. *)
Definition initTimeout (pg : Page) : Page :=
  let pg' := set_left pg (changePlanetCategory pg (leftViewer pg) "earth") in
  if changePlanetCategory_throws pg "earth" then pg'
  else set_right pg' (changePlanetCategory pg' (rightViewer pg') "jupiter").

(** The page when the timer fires before any event has been handled. *)
Definition ready (solarResponse exoResponse : option (list Planet)) : Page :=
  initTimeout (init solarResponse exoResponse).

(** The pages a run of events leads to from a given page. *)
Definition run (pg : Page) (events : list Event) : Page :=
  fold_left handle events pg.

(** The two states of the viewer state machine. *)
Inductive ViewerStatus := Empty | Ready.

Definition status (viewer : Viewer) : ViewerStatus :=
  match availablePlanets viewer with
  | [] => Empty
  | _ :: _ => Ready
  end.

(** The selected index is a position of the candidate list, when there is
    one. *)
Definition indexInRange (viewer : Viewer) : Prop :=
  availablePlanets viewer <> [] ->
  0 <= currentPlanetIndex viewer
       < array_length (availablePlanets viewer).

End CategoryCompare.

(** ** Presentation of a planet: size, habitability index, textures *)

Module Presentation.

Open Scope R_scope.

(** The constant [planetSize] of the viewer scripts. *)
Definition planetSize : R := 2.

(** [scaleFactor] of [createPlanet]; the radius is read as
    [planetData.radius || 6371]. *)
Definition scaleFactor (planetData : Planet) : R :=
  let radius := or_default (Some (radius planetData)) 6371 in
  let earthRadius := 6371 in
  Rmin (Rmax (radius / earthRadius) 0.3) 5.

(** [actualSize] of [createPlanet]: the radius of the sphere geometry. *)
Definition actualSize (planetData : Planet) : R :=
  let baseSize := planetSize in
  baseSize * scaleFactor planetData.

(** [calculateMockHI(planet)].  A [NaN] temperature makes every later
    intermediate value [NaN] ([Math.max] and [Math.min] return [NaN] when an
    argument is [NaN]). *)
Definition calculateMockHI (planet : Planet) : option R :=
  if (name planet =? "Earth")%string then Some 1.0
  else if (name planet =? "Jupiter")%string then Some 0.05
  else
    let earthRadius := 6371 in
    let radiusRatio := radius planet / earthRadius in
    match Derivation.calculateMockTemperature planet with
    | Some temp =>
        let radiusScore := Rmax 0 (1 - Rabs (radiusRatio - 1.0) / 0.5) in
        let tempScore := Rmax 0 (1 - Rabs (temp - 288) / 60) in
        let hi := (radiusScore + tempScore) / 2 in
        Some (clamp01 hi)
    | None => None
    end.

(** The texture categories of [determinePlanetType]. *)
Inductive TextureType :=
| gas_giant | super_earth | small_rocky
| rocky_world | ice_world | desert_world | ocean_world.

(** [determinePlanetType(relativeSize)]; [random] is the value that
    [Math.random()] returns, and [None] is [undefined]. *)
Definition determinePlanetType (relativeSize random : R)
  : option TextureType :=
  if Rlt_dec 4 relativeSize then Some gas_giant
  else if Rlt_dec 1.5 relativeSize then Some super_earth
  else if Rlt_dec relativeSize 0.5 then Some small_rocky
  else
    let types := [rocky_world; ice_world; desert_world; ocean_world] in
    array_get types (Zfloor (random * IZR (array_length types))).

(** The five painters of [generateRealisticTexture]. *)
Inductive Painter :=
| GasGiantTexture | IceWorldTexture | DesertWorldTexture
| OceanWorldTexture | RockyWorldTexture.

(** What [generateRealisticTexture(planetData)] decides before it paints:
    the painter and whether the atmospheric glow is added.  The radius is
    read as [planetData.radius || 1]. *)
Definition generateRealisticTexture (planetData : Planet) (random : R)
  : Painter * bool :=
  let radius := or_default (Some (radius planetData)) 1 in
  let earthRadius := 6371 in
  let relativeSize := radius / earthRadius in
  let planetType := determinePlanetType relativeSize random in
  let painter :=
    match planetType with
    | Some gas_giant => GasGiantTexture
    | Some ice_world => IceWorldTexture
    | Some desert_world => DesertWorldTexture
    | Some ocean_world => OceanWorldTexture
    | _ => RockyWorldTexture
    end in
  (painter, if Rlt_dec 0.5 relativeSize then true else false).

(** [availableTextures] of the category comparison page. *)
Definition availableTextures : list string :=
  ["2k_earth_daymap.jpg"; "2k_jupiter.jpg"; "GJ_504_b.jpg";
   "HAT-P-11_b.jpg"; "HD_189733_b.jpg"; "Kepler-22_b.jpg";
   "Kepler-452_b.jpg"; "Kepler-7_b.jpg"; "OGLE-2005-BLG-390L_b.jpg";
   "Proxima_Cen_b.jpg"; "YZ_Cet_d.jpg"]%string.

(** The file [loadPlanetTexture(planetData)] of the category comparison
    page asks the texture loader for, as a function of the record's
    [texture] field ([None] when absent) and of the value of
    [Math.random()].  [None] is a path built from [undefined]. *)
Definition loadPlanetTexture (texture : option string) (random : R)
  : option string :=
  let exoplanetTextures :=
    filter (fun t => negb (includes t "2k_")) availableTextures in
  let randomTexture :=
    array_get exoplanetTextures
      (Zfloor (random * IZR (array_length exoplanetTextures))) in
  match texture with
  | Some t =>
      if negb (t =? "")%string
         && existsb (fun t' => (t' =? t)%string) availableTextures
      then Some t
      else randomTexture
  | None => randomTexture
  end.

End Presentation.

(** ** What the category comparison page shows of a viewer *)

Module CategoryView.

Import CategoryCompare.

Open Scope Z_scope.

(** What [updateNavigation(viewer)] writes to the page: the counter, the
    total, and the [disabled] flags of the two navigation buttons. *)
Record Navigation := {
  counter : Z;
  total : Z;
  prevDisabled : bool;
  nextDisabled : bool
}.

Definition updateNavigation (viewer : Viewer) : Navigation :=
  {| counter := currentPlanetIndex viewer + 1;
     total := array_length (availablePlanets viewer);
     prevDisabled := currentPlanetIndex viewer =? 0;
     nextDisabled :=
       currentPlanetIndex viewer
       =? array_length (availablePlanets viewer) - 1 |}.

(** The displayed planet is the candidate at the selected index, and the
    mesh was built from it. *)
Definition displayConsistent (viewer : Viewer) : Prop :=
  currentPlanet viewer
  = array_get (availablePlanets viewer) (currentPlanetIndex viewer)
  /\ option_map userData (planetMesh viewer) = currentPlanet viewer.

(** The selected index is never negative, is 0 when there is no candidate,
    and is a position of the candidate list otherwise. *)
Definition indexSound (viewer : Viewer) : Prop :=
  0 <= currentPlanetIndex viewer /\
  (availablePlanets viewer = [] -> currentPlanetIndex viewer = 0) /\
  indexInRange viewer.

(** The candidate list is the list of one of the page's categories. *)
Definition showsCategory (pg : Page) (viewer : Viewer) : Prop :=
  exists category,
    availablePlanets viewer = getPlanetsForCategory pg category.

(** What holds of the viewer on side [s] from the moment [init] returns.
    A viewer that displays a planet while it has candidates has its index
    inside the candidate list and displays the candidate there.  A viewer
    that has displayed nothing yet is at index 0, or is the right viewer at
    the index 1 it was declared with. *)
Definition viewerSound (s : Side) (viewer : Viewer) : Prop :=
  (availablePlanets viewer <> [] -> currentPlanet viewer <> None ->
   0 <= currentPlanetIndex viewer < array_length (availablePlanets viewer)
   /\ displayConsistent viewer) /\
  (currentPlanet viewer = None ->
   currentPlanetIndex viewer = 0
   \/ (s = RightSide /\ currentPlanetIndex viewer = 1)).

(** The global [planets] is the exoplanet catalog and both candidate lists
    are category lists. *)
Definition catalogSound (pg : Page) : Prop :=
  planets pg = exoplanets pg /\
  showsCategory pg (leftViewer pg) /\ showsCategory pg (rightViewer pg).

(** Two pages hold the same catalogs. *)
Definition sameCatalogs (pg pg' : Page) : Prop :=
  solarSystemPlanets pg' = solarSystemPlanets pg /\
  exoplanets pg' = exoplanets pg /\
  planets pg' = planets pg.

(** [n] frames of [animate] on one viewer. *)
Fixpoint animateFrames (n : nat) (viewer : Viewer) : Viewer :=
  match n with
  | O => viewer
  | S n' => animateFrames n' (animateViewer viewer)
  end.

End CategoryView.

(** ** The category comparison page while it is live

    [init] returns with the listeners attached, the animation loop started
    and its 100 ms timer armed.  From then on the page handles the events
    that reach it and, once, the timer.  A viewer's search dropdown can be
    operated only while it is displayed; [changePlanetCategory] sets its
    [style.display] to ['block'] for the category ['exoplanets'] and to
    ['none'] for any other.  What the dropdowns are before the first such
    call is decided by the page's markup, which is not among the sources. *)

Module CategoryLive.

Import CategoryCompare CategoryView.

(** Whether the two search dropdowns are displayed. *)
Record Dom := {
  leftSearchDisplayed : bool;
  rightSearchDisplayed : bool
}.

Definition searchDisplayed (d : Dom) (s : Side) : bool :=
  match s with
  | LeftSide => leftSearchDisplayed d
  | RightSide => rightSearchDisplayed d
  end.

Definition set_searchDisplayed (d : Dom) (s : Side) (b : bool) : Dom :=
  match s with
  | LeftSide =>
      {| leftSearchDisplayed := b;
         rightSearchDisplayed := rightSearchDisplayed d |}
  | RightSide =>
      {| leftSearchDisplayed := leftSearchDisplayed d;
         rightSearchDisplayed := b |}
  end.

Record LivePage := {
  page : Page;
  dom : Dom;
  timerPending : bool
}.

(** What can happen on the live page: an event reaches its listener, or the
    timer of [init] fires. *)
Inductive Step :=
| Deliver (e : Event)
| Timer.

(** A choice in a search dropdown can only be made while the dropdown is
    displayed. *)
Definition deliverable (lp : LivePage) (e : Event) : bool :=
  match e with
  | SearchChange s _ => searchDisplayed (dom lp) s
  | _ => true
  end.

(** The [style.display] that [changePlanetCategory(viewer, category)] gives
    the viewer's search dropdown. *)
Definition displayFor (category : string) : bool :=
  (category =? "exoplanets")%string.

Definition deliver (lp : LivePage) (e : Event) : LivePage :=
  {| page := handle (page lp) e;
     dom :=
       match e with
       | ChangeCategory s category =>
           set_searchDisplayed (dom lp) s (displayFor category)
       | _ => dom lp
       end;
     timerPending := timerPending lp |}.

(** The timer's callback on the live page.  [changePlanetCategory] sets the
    display of the dropdown before it shows the first planet, so the left
    dropdown is hidden whether or not the call throws. *)
Definition timeout (lp : LivePage) : LivePage :=
  let hidden := set_searchDisplayed (dom lp) LeftSide (displayFor "earth") in
  {| page := initTimeout (page lp);
     dom :=
       if changePlanetCategory_throws (page lp) "earth" then hidden
       else set_searchDisplayed hidden RightSide (displayFor "jupiter");
     timerPending := false |}.

Definition step (lp : LivePage) (st : Step) : LivePage :=
  match st with
  | Deliver e => if deliverable lp e then deliver lp e else lp
  | Timer => if timerPending lp then timeout lp else lp
  end.

(** The page when [init] returns; [markup] is how the page's markup
    displays the two search dropdowns. *)
Definition boot (markup : Dom)
    (solarResponse exoResponse : option (list Planet)) : LivePage :=
  {| page := init solarResponse exoResponse;
     dom := markup;
     timerPending := true |}.

(** The live page after a sequence of steps. *)
Definition live (markup : Dom)
    (solarResponse exoResponse : option (list Planet))
    (steps : list Step) : LivePage :=
  fold_left step steps (boot markup solarResponse exoResponse).

(** The category [init] gives each viewer. *)
Definition defaultCategory (s : Side) : string :=
  match s with
  | LeftSide => "earth"
  | RightSide => "jupiter"
  end.

(** A displayed dropdown belongs to a viewer whose candidates are the whole
    catalog, unless the markup displayed it from the start and the viewer
    still has the candidates [init] gave it. *)
Definition searchSound (markup : Dom) (lp : LivePage) (s : Side) : Prop :=
  searchDisplayed (dom lp) s = true ->
  availablePlanets (viewerOf (page lp) s) = planets (page lp)
  \/ (searchDisplayed markup s = true /\
      availablePlanets (viewerOf (page lp) s)
      = getPlanetsForCategory (page lp) (defaultCategory s)).

Definition liveSound (markup : Dom) (lp : LivePage) : Prop :=
  catalogSound (page lp) /\
  forall s : Side,
    viewerSound s (viewerOf (page lp) s) /\ searchSound markup lp s.

End CategoryLive.

(** ** The planet list of the explorer *)

Module ExplorerList.

Import Explorer.

Open Scope Z_scope.

(** [a.slice(start, end)] for a non-negative [start]. *)
Definition slice {A : Type} (a : list A) (start end_ : Z) : list A :=
  firstn (Z.to_nat (end_ - start)) (skipn (Z.to_nat start) a).

(** [currentPagePlanets] of [updatePlanetSelect]: the planets the dropdown
    lists. *)
Definition currentPagePlanets (s : State) : list Planet :=
  let startIndex := currentPage s * planetsPerPage s in
  let endIndex :=
    Z.min (startIndex + planetsPerPage s)
          (array_length (filteredPlanets s)) in
  slice (filteredPlanets s) startIndex endIndex.

(** What [updatePaginationInfo] writes: the page number shown, the number
    of pages, and the [disabled] flags of the two page buttons. *)
Record PaginationInfo := {
  shownPage : Z;
  totalPages : Z;
  prevPageDisabled : bool;
  nextPageDisabled : bool
}.

Definition updatePaginationInfo (s : State) : PaginationInfo :=
  let totalPages :=
    Math_ceil_div (array_length (filteredPlanets s)) (planetsPerPage s) in
  {| shownPage := currentPage s + 1;
     totalPages := totalPages;
     prevPageDisabled := currentPage s =? 0;
     nextPageDisabled := currentPage s >=? totalPages - 1 |}.

(** The test behind [applyFilter]. *)
Definition passesFilter (currentFilter : string) (planet : Planet) : bool :=
  (currentFilter =? "all")%string || (type planet =? currentFilter)%string.

(** [handlePlanetSelect(event)]; [selectedIndex] is [parseInt] of the chosen
    option.  [filteredPlanets] holds references to objects of [planets],
    the ones that pass the current filter, in order; the reference at
    [selectedIndex] is modelled by its position in [planets], which is what
    [planets.indexOf] returns for it, and [indexOf(undefined)] is -1. *)
Definition handlePlanetSelect (s : State) (selectedIndex : Z) : State :=
  let references :=
    filter_positions (passesFilter (currentFilter s)) (planets s) 0 in
  let planetIndex :=
    match array_get references selectedIndex with
    | Some position => position
    | None => -1
    end in
  showPlanet s planetIndex.

(** The filtered list is the catalog seen through the current filter. *)
Definition filterApplied (s : State) : Prop :=
  filteredPlanets s = filter (passesFilter (currentFilter s)) (planets s).

(** The object [typeCounts] of [applyFilter], as the list of its keys and
    values. *)
Definition TypeCounts := list (string * Z).

(** [typeCounts[key] || 0] *)
Fixpoint countOf (typeCounts : TypeCounts) (key : string) : Z :=
  match typeCounts with
  | [] => 0
  | (k, n) :: rest => if (k =? key)%string then n else countOf rest key
  end.

(** [typeCounts[key] = value] *)
Fixpoint setCount (typeCounts : TypeCounts) (key : string) (value : Z)
  : TypeCounts :=
  match typeCounts with
  | [] => [(key, value)]
  | (k, n) :: rest =>
      if (k =? key)%string then (k, value) :: rest
      else (k, n) :: setCount rest key value
  end.

(** The [forEach] loop that fills [typeCounts]. *)
Definition typeCounts (planets : list Planet) : TypeCounts :=
  fold_left
    (fun counts p => setCount counts (type p) (countOf counts (type p) + 1))
    planets [].

(** The type tags the filter dropdown offers besides "all". *)
Definition typeOptions : list string :=
  ["Gas Giant"; "Neptune-like"; "Sub-Neptune"; "Super-Earth";
   "Terrestrial"]%string.

(** The state all of whose pages are asked for in turn. *)
Definition pageAt (s : State) (page : Z) : list Planet :=
  currentPagePlanets (set_page s page).

End ExplorerList.

(** ** The catalog converter *)

Module Converter.

Open Scope R_scope.

(** [determinePlanetType(radius)] of the converter script. *)
Definition determinePlanetType (radius : R) : string :=
  let earthRadius := 6371 in
  let relativeSize := radius / earthRadius in
  if Rlt_dec 10 relativeSize then "Gas Giant"
  else if Rlt_dec 4 relativeSize then "Neptune-like"
  else if Rlt_dec 2 relativeSize then "Sub-Neptune"
  else if Rlt_dec 1.5 relativeSize then "Super-Earth"
  else "Terrestrial".

Definition isInHabitableZone (semiMajorAxis : R) : bool :=
  if Rle_dec 0.5 semiMajorAxis then
    if Rle_dec semiMajorAxis 2.0 then true else false
  else false.

End Converter.

(** ** The star-system view *)

Module SystemView.

Open Scope R_scope.

(** [easeInOutCubic(t)]; [Math.pow(x, 3)] is the cube of [x]. *)
Definition easeInOutCubic (t : R) : R :=
  if Rlt_dec t 0.5 then 4 * t * t * t
  else 1 - (-2 * t + 2) ^ 3 / 2.

End SystemView.

(** ** Sample records

    Concrete catalog entries on which the properties below are exercised. *)

Definition orbitOf (p a : R) : option EllipticalOrbit :=
  Some {| period := Some p; semiMajorAxis := Some a;
          eccentricity := 0%R; inclination := 89%R |}.

Definition kepler22b : Planet :=
  {| id := "K00087.01"; name := "Kepler-22 b"; system := "Kepler-22";
     type := "Super-Earth"; radius := 15290%R;
     ellipticalOrbit := orbitOf 289.9%R 0.849%R |}.

Definition grazer : Planet :=
  {| id := "K00000.01"; name := "KOI-0.01"; system := "KOI-0";
     type := "Terrestrial"; radius := 6371%R;
     ellipticalOrbit := orbitOf 365.25%R 0%R |}.

Definition farOut : Planet :=
  {| id := "K00025.01"; name := "KOI-25.01"; system := "KOI-25";
     type := "Gas Giant"; radius := 71492%R;
     ellipticalOrbit := orbitOf 45000%R 25%R |}.

Definition earth : Planet :=
  {| id := "SOL-3"; name := "Earth"; system := "Solar System";
     type := "Terrestrial"; radius := 6371%R;
     ellipticalOrbit := orbitOf 365.25%R 1%R |}.

Definition jupiter : Planet :=
  {| id := "SOL-5"; name := "Jupiter"; system := "Solar System";
     type := "Gas Giant"; radius := 71492%R;
     ellipticalOrbit := orbitOf 4333%R 5.2%R |}.

(** The category page after a successful load of two Solar System bodies
    and three exoplanets. *)
Definition samplePage : CategoryCompare.Page :=
  CategoryCompare.ready (Some [earth; jupiter])
                        (Some [kepler22b; grazer; farOut]).

Definition kepler62f : Planet :=
  {| id := "K00701.04"; name := "Kepler-62 f"; system := "Kepler-62";
     type := "Super-Earth"; radius := 8983%R;
     ellipticalOrbit := orbitOf 267.3%R 0.718%R |}.

Definition sampleCatalog : list Planet := repeat kepler22b 25.

(** The category page with a catalog of 25 exoplanets. *)
Definition catalogPage : CategoryCompare.Page :=
  CategoryCompare.ready (Some [earth; jupiter]) (Some sampleCatalog).

(** An Earth record without orbital elements. *)
Definition bareEarth : Planet :=
  {| id := "SOL-3"; name := "Earth"; system := "Solar System";
     type := "Terrestrial"; radius := 6371%R;
     ellipticalOrbit := None |}.


(** Markup that displays both search dropdowns, and markup that hides
    them. *)
Definition displayedMarkup : CategoryLive.Dom :=
  {| CategoryLive.leftSearchDisplayed := true;
     CategoryLive.rightSearchDisplayed := true |}.

Definition hiddenMarkup : CategoryLive.Dom :=
  {| CategoryLive.leftSearchDisplayed := false;
     CategoryLive.rightSearchDisplayed := false |}.

(** A record whose radius is missing (read as 0 by [||]). *)
Definition unsized : Planet :=
  {| id := "K00001.01"; name := "KOI-1.01"; system := "KOI-1";
     type := "Unknown"; radius := 0%R;
     ellipticalOrbit := orbitOf 10%R 0.1%R |}.

(** * Properties *)

(** ** Arithmetic of the JavaScript helpers *)

Section NumberFacts.

Open Scope R_scope.

Lemma or_default_nonzero (v : option R) (d : R) :
  d <> 0 -> or_default v d <> 0.
Proof.
  intros Hd. unfold or_default.
  destruct v as [x|]; [destruct (Req_dec_T x 0)|]; assumption.
Qed.

Lemma or_default_present (x d : R) :
  x <> 0 -> or_default (Some x) d = x.
Proof.
  intros Hx. unfold or_default.
  destruct (Req_dec_T x 0); [contradiction|reflexivity].
Qed.

Lemma Math_pow_positive (x y : R) :
  0 < x -> Math_pow x y = Some (Rpower x y).
Proof.
  intros Hx. unfold Math_pow.
  destruct (Rlt_dec 0 x); [reflexivity|contradiction].
Qed.

Lemma Math_pow_negative (x y : R) :
  x < 0 -> Math_pow x y = None.
Proof.
  intros Hx. unfold Math_pow.
  destruct (Rlt_dec 0 x); [lra|].
  destruct (Req_dec_T x 0); [lra|reflexivity].
Qed.

Lemma Rpower_positive (x y : R) : 0 < Rpower x y.
Proof. unfold Rpower. apply exp_pos. Qed.

Lemma Rpower_minus_half (x : R) :
  0 < x -> Rpower x (-0.5) = / sqrt x.
Proof.
  intros Hx.
  replace (-0.5) with (- / 2) by lra.
  rewrite Rpower_Ropp, Rpower_sqrt by assumption.
  reflexivity.
Qed.

(** The cube of [x ^ (1/3)] is [x]. *)
Lemma Rpower_third_cube (x : R) :
  0 < x -> Rpower x (1 / 3) ^ 3 = x.
Proof.
  intros Hx.
  replace (Rpower x (1 / 3) ^ 3)
    with (Rpower x (1 / 3) * (Rpower x (1 / 3) * Rpower x (1 / 3)))
    by (simpl; ring).
  rewrite <- !Rpower_plus.
  replace (1 / 3 + (1 / 3 + 1 / 3)) with 1 by lra.
  apply Rpower_1. assumption.
Qed.

Lemma ln_le_0 (x : R) : 0 < x <= 1 -> ln x <= 0.
Proof.
  intros [Hx0 [Hlt | ->]].
  - left. rewrite <- ln_1. apply ln_increasing; lra.
  - rewrite ln_1. apply Rle_refl.
Qed.

Lemma Rpower_le_1 (x y : R) :
  0 < x <= 1 -> 0 <= y -> Rpower x y <= 1.
Proof.
  intros Hx Hy. unfold Rpower.
  pose proof (ln_le_0 Hx) as Hln.
  assert (H : y * ln x <= 0) by nra.
  rewrite <- exp_0.
  destruct H as [Hlt|Heq].
  - left. apply exp_increasing. assumption.
  - rewrite Heq. apply Rle_refl.
Qed.

Lemma clamp01_id (x : R) : 0 <= x <= 1 -> clamp01 x = x.
Proof.
  intros [H0 H1]. unfold clamp01.
  rewrite (Rmin_right 1 x) by assumption.
  apply Rmax_right. assumption.
Qed.

Lemma clamp01_bounds (x : R) : 0 <= clamp01 x <= 1.
Proof.
  unfold clamp01. split.
  - apply Rmax_l.
  - apply Rmax_lub; [lra|apply Rmin_l].
Qed.

(** A similarity score of positive quantities lies in (0, 1]. *)
Lemma similarityScore_bounds (x ref : R) :
  0 < x -> 0 < ref -> 0 < Derivation.similarityScore x ref <= 1.
Proof.
  intros Hx Href. unfold Derivation.similarityScore.
  assert (Hs : 0 < x + ref) by lra.
  assert (Habs : Rabs ((x - ref) / (x + ref)) < 1).
  { apply Rabs_def1.
    - apply (Rmult_lt_reg_r (x + ref)); [assumption|].
      unfold Rdiv. rewrite Rmult_assoc, Rinv_l by lra. lra.
    - apply (Rmult_lt_reg_r (x + ref)); [assumption|].
      unfold Rdiv. rewrite Rmult_assoc, Rinv_l by lra. lra. }
  pose proof (Rabs_pos ((x - ref) / (x + ref))).
  lra.
Qed.

Lemma similarityScore_same (x : R) :
  0 < x -> Derivation.similarityScore x x = 1.
Proof.
  intros Hx. unfold Derivation.similarityScore.
  replace ((x - x) / (x + x)) with 0 by (field; lra).
  rewrite Rabs_R0. lra.
Qed.

(** [Math.round] of a number within half a unit of an integer. *)
Lemma Math_round_eq (x : R) (z : Z) :
  IZR z - / 2 <= x < IZR z + / 2 -> Math_round x = z.
Proof.
  intros H. unfold Math_round. apply Zfloor_eq. lra.
Qed.

Lemma Math_round_nonneg (x : R) : 0 <= x -> (0 <= Math_round x)%Z.
Proof.
  intros H. unfold Math_round. apply Zfloor_lub. simpl. lra.
Qed.

Open Scope Z_scope.

Lemma Math_ceil_div_spec (n d : Z) :
  0 < d ->
  d * (Math_ceil_div n d - 1) < n <= d * Math_ceil_div n d.
Proof.
  intros Hd. unfold Math_ceil_div.
  pose proof (Z.div_mod (n + d - 1) d ltac:(lia)) as Hdm.
  pose proof (Z.mod_pos_bound (n + d - 1) d Hd) as Hb.
  lia.
Qed.

Lemma Math_ceil_div_positive (n d : Z) :
  0 < d -> 0 < n -> 1 <= Math_ceil_div n d.
Proof.
  intros Hd Hn. pose proof (Math_ceil_div_spec n Hd). nia.
Qed.

Lemma Math_ceil_div_0 (d : Z) : 0 < d -> Math_ceil_div 0 d = 0.
Proof.
  intros Hd. pose proof (Math_ceil_div_spec 0 Hd). nia.
Qed.

End NumberFacts.

(** ** Arrays and positions *)

Section ArrayFacts.

Open Scope Z_scope.

Context {A : Type}.

Lemma array_get_in_range (a : list A) (i : Z) :
  0 <= i < array_length a -> exists x, array_get a i = Some x.
Proof.
  intros [H0 H1]. unfold array_get, array_length in *.
  destruct (0 <=? i) eqn:E0; [|lia].
  destruct (i <? Z.of_nat (List.length a)) eqn:E1; [|lia].
  simpl. destruct (nth_error a (Z.to_nat i)) eqn:E.
  - eexists. reflexivity.
  - apply nth_error_None in E. lia.
Qed.

Lemma array_get_some (a : list A) (i : Z) (x : A) :
  array_get a i = Some x -> 0 <= i < array_length a.
Proof.
  unfold array_get, array_length.
  destruct (0 <=? i) eqn:E0; destruct (i <? Z.of_nat (List.length a)) eqn:E1;
    simpl; try discriminate.
  intros _. lia.
Qed.

Lemma array_get_0 (x : A) (a : list A) : array_get (x :: a) 0 = Some x.
Proof. reflexivity. Qed.

Lemma array_get_cons (x : A) (a : list A) (i : Z) :
  0 < i -> array_get (x :: a) i = array_get a (i - 1).
Proof.
  intros Hi. unfold array_get.
  assert (Hlen : Z.of_nat (List.length (x :: a))
                 = Z.of_nat (List.length a) + 1)
    by (simpl List.length; lia).
  rewrite Hlen.
  destruct (Z.leb_spec 0 i); [|lia].
  destruct (Z.leb_spec 0 (i - 1)); [|lia].
  destruct (Z.ltb_spec i (Z.of_nat (List.length a) + 1));
    destruct (Z.ltb_spec (i - 1) (Z.of_nat (List.length a)));
    try lia; [|reflexivity].
  replace (Z.to_nat i) with (S (Z.to_nat (i - 1))) by lia. reflexivity.
Qed.

Lemma array_length_nonneg (a : list A) : 0 <= array_length a.
Proof. unfold array_length. lia. Qed.

Lemma array_length_nil_iff (a : list A) : array_length a = 0 <-> a = [].
Proof.
  unfold array_length. destruct a; simpl; split; intros H;
    try reflexivity; try discriminate; lia.
Qed.

End ArrayFacts.

Section PositionFacts.

Open Scope Z_scope.

Context {A : Type} (f : A -> bool).

Lemma filter_positions_ge (a : list A) (i k : Z) :
  In k (filter_positions f a i) -> i <= k.
Proof.
  revert i. induction a as [|x a IH]; intros i; simpl; [tauto|].
  destruct (f x); simpl.
  - intros [<-|H]; [lia|]. apply IH in H. lia.
  - intros H. apply IH in H. lia.
Qed.

Lemma filter_positions_In (a : list A) (i k : Z) :
  In k (filter_positions f a i) <->
  exists x, array_get a (k - i) = Some x /\ f x = true.
Proof.
  revert i. induction a as [|x a IH]; intros i; simpl.
  - split; [tauto|]. intros (y & Hy & _).
    apply array_get_some in Hy. unfold array_length in Hy. simpl in Hy. lia.
  - split.
    + intros Hin.
      assert (Htail : In k (filter_positions f a (i + 1)) ->
                      exists y, array_get (x :: a) (k - i) = Some y
                                /\ f y = true).
      { intros H. pose proof (filter_positions_ge _ _ _ H) as Hge.
        apply IH in H. destruct H as (y & Hy & Hf). exists y.
        rewrite array_get_cons by lia.
        replace (k - i - 1) with (k - (i + 1)) by lia. tauto. }
      destruct (f x) eqn:Efx; [|auto].
      destruct Hin as [<-|H]; [|auto].
      exists x. rewrite Z.sub_diag. auto.
    + intros (y & Hy & Hf).
      pose proof (array_get_some _ _ Hy) as Hrange.
      destruct (Z.eq_dec k i) as [->|Hne].
      * rewrite Z.sub_diag in Hy. simpl in Hy. injection Hy as ->.
        rewrite Hf. left. reflexivity.
      * assert (Hin : In k (filter_positions f a (i + 1))).
        { apply IH. exists y. rewrite array_get_cons in Hy by lia.
          replace (k - (i + 1)) with (k - i - 1) by lia. tauto. }
        destruct (f x); [right|]; assumption.
Qed.

Lemma filter_positions_NoDup (a : list A) (i : Z) :
  NoDup (filter_positions f a i).
Proof.
  revert i. induction a as [|x a IH]; intros i; simpl.
  - constructor.
  - destruct (f x); [|apply IH].
    constructor; [|apply IH].
    intros H. apply filter_positions_ge in H. lia.
Qed.

(** Exactly one element passes the test: the filter is that position. *)
Lemma filter_positions_unique (a : list A) (i : Z) (x : A) :
  array_get a i = Some x -> f x = true ->
  (forall j y, array_get a j = Some y -> f y = true -> j = i) ->
  filter_positions f a 0 = [i].
Proof.
  intros Hx Hf Huniq.
  assert (Hall : forall k, In k (filter_positions f a 0) -> k = i).
  { intros k Hk. apply filter_positions_In in Hk.
    destruct Hk as (y & Hy & Hfy). rewrite Z.sub_0_r in Hy.
    exact (Huniq _ _ Hy Hfy). }
  assert (Hin : In i (filter_positions f a 0)).
  { apply filter_positions_In. exists x. rewrite Z.sub_0_r. tauto. }
  pose proof (filter_positions_NoDup a 0) as Hnd.
  destruct (filter_positions f a 0) as [|k [|k' l]].
  - destruct Hin.
  - f_equal. apply Hall. left. reflexivity.
  - exfalso. inversion Hnd as [|? ? Hnotin _]. apply Hnotin.
    rewrite (Hall k) by (left; reflexivity).
    rewrite (Hall k') by (right; left; reflexivity).
    left. reflexivity.
Qed.

Lemma filter_positions_none (a : list A) :
  (forall j y, array_get a j = Some y -> f y = false) ->
  filter_positions f a 0 = [].
Proof.
  intros Hnone.
  destruct (filter_positions f a 0) as [|k l] eqn:E; [reflexivity|].
  assert (Hin : In k (filter_positions f a 0)) by (rewrite E; left; auto).
  apply filter_positions_In in Hin. destruct Hin as (y & Hy & Hf).
  rewrite (Hnone _ _ Hy) in Hf. discriminate.
Qed.

Lemma filter_positions_several (a : list A) (i j : Z) (x y : A) :
  i <> j ->
  array_get a i = Some x -> f x = true ->
  array_get a j = Some y -> f y = true ->
  2 <= array_length (filter_positions f a 0).
Proof.
  intros Hne Hx Hfx Hy Hfy.
  assert (Hincl : incl [i; j] (filter_positions f a 0)).
  { intros k [<-|[<-|[]]]; apply filter_positions_In;
      rewrite Z.sub_0_r; eauto. }
  assert (Hnd : NoDup [i; j]).
  { constructor; [simpl; intuition congruence|].
    constructor; [simpl; tauto|constructor]. }
  pose proof (NoDup_incl_length Hnd Hincl) as Hlen.
  unfold array_length. simpl in Hlen. lia.
Qed.

Lemma find_position_first (a : list A) (off i : Z) (x : A) :
  array_get a i = Some x -> f x = true ->
  (forall j y, j < i -> array_get a j = Some y -> f y = false) ->
  find_position f a off = Some (off + i).
Proof.
  revert off i. induction a as [|z a IH]; intros off i Hx Hf Hfirst.
  - apply array_get_some in Hx. unfold array_length in Hx. simpl in Hx. lia.
  - pose proof (array_get_some _ _ Hx) as Hrange. simpl.
    destruct (Z.eq_dec i 0) as [->|Hne].
    + simpl in Hx. injection Hx as ->. rewrite Hf.
      f_equal. lia.
    + rewrite (Hfirst 0 z) by (try reflexivity; lia).
      rewrite array_get_cons in Hx by lia.
      rewrite (IH (off + 1) (i - 1)); [f_equal; lia|assumption..|].
      intros j y Hj Hy.
      assert (H0j : 0 <= j) by (apply array_get_some in Hy; lia).
      apply (Hfirst (j + 1) y); [lia|].
      rewrite array_get_cons by lia.
      replace (j + 1 - 1) with j by lia. assumption.
Qed.

Lemma find_position_none (a : list A) (off : Z) :
  (forall j y, array_get a j = Some y -> f y = false) ->
  find_position f a off = None.
Proof.
  revert off. induction a as [|z a IH]; intros off Hnone; simpl.
  - reflexivity.
  - rewrite (Hnone 0 z) by reflexivity.
    apply IH. intros j y Hy.
    assert (H0j : 0 <= j) by (apply array_get_some in Hy; lia).
    apply (Hnone (j + 1) y).
    rewrite array_get_cons by lia.
    replace (j + 1 - 1) with j by lia. assumption.
Qed.

End PositionFacts.

(** ** Derivation engine *)

Section DerivationFacts.
Open Scope R_scope.
Import Derivation.

Lemma name_is (planet : Planet) (s : string) :
  name planet = s -> (name planet =? s)%string = true.
Proof. intros ->. apply String.eqb_refl. Qed.

Lemma name_is_not (planet : Planet) (s : string) :
  name planet <> s -> (name planet =? s)%string = false.
Proof. intros H. apply String.eqb_neq. assumption. Qed.

Lemma unit_product (a b : R) :
  0 < a <= 1 -> 0 < b <= 1 -> 0 < a * b <= 1.
Proof. intros Ha Hb. nra. Qed.

Lemma esi_Earth (planet : Planet) :
  name planet = "Earth"%string -> calculateMockESI planet = Some 1.
Proof.
  intros H. unfold calculateMockESI. rewrite (@name_is _ _ H).
  f_equal. lra.
Qed.

Lemma esi_Jupiter (planet : Planet) :
  name planet = "Jupiter"%string -> calculateMockESI planet = Some 0.15.
Proof.
  intros H. unfold calculateMockESI. rewrite H. reflexivity.
Qed.

Lemma esi_general (planet : Planet) :
  name planet <> "Earth"%string -> name planet <> "Jupiter"%string ->
  calculateMockESI planet =
  match
    Math_pow
      (similarityScore (radius planet / 6371) 1
       * similarityScore (or_default (orbit_semiMajorAxis planet) 1) 1
       * similarityScore (or_default (orbit_period planet) 365) 365.25)
      (1 / 3)
  with
  | Some esi => Some (clamp01 esi)
  | None => None
  end.
Proof.
  intros HE HJ. unfold calculateMockESI.
  rewrite (@name_is_not _ _ HE), (@name_is_not _ _ HJ).
  replace 1.0 with 1 by lra. reflexivity.
Qed.

(** Claim C1, amended.  For every canonical planet record (positive radius,
    positive period, non-negative semi-major axis): a record named Earth
    yields exactly 1.0 and one named Jupiter exactly 0.15; any other record
    yields the geometric mean [g] (the non-negative cube root of the
    product) of the radius score, the semi-major-axis score and the period
    score, where the semi-major-axis score is taken on 1.0 when the field
    is zero; clamping to [0,1] leaves [g] unchanged, and in every case the
    result lies in [0,1]. *)
Theorem esi_geometric_mean (planet : Planet) (o : EllipticalOrbit)
    (a p : R) :
  ellipticalOrbit planet = Some o ->
  semiMajorAxis o = Some a -> period o = Some p ->
  0 < radius planet -> 0 <= a -> 0 < p ->
  (name planet = "Earth"%string -> calculateMockESI planet = Some 1) /\
  (name planet = "Jupiter"%string -> calculateMockESI planet = Some 0.15) /\
  (name planet <> "Earth"%string -> name planet <> "Jupiter"%string ->
   exists g,
     geometricMean3 g
       (similarityScore (radius planet / 6371) 1)
       (similarityScore (if Req_dec_T a 0 then 1 else a) 1)
       (similarityScore p 365.25)
     /\ calculateMockESI planet = Some (clamp01 g)
     /\ clamp01 g = g) /\
  (exists e, calculateMockESI planet = Some e /\ 0 <= e <= 1).
Proof.
  intros Ho Ha Hp Hr Ha0 Hp0.
  assert (Hgen : name planet <> "Earth"%string ->
                 name planet <> "Jupiter"%string ->
    exists g,
     geometricMean3 g
       (similarityScore (radius planet / 6371) 1)
       (similarityScore (if Req_dec_T a 0 then 1 else a) 1)
       (similarityScore p 365.25)
     /\ calculateMockESI planet = Some (clamp01 g)
     /\ 0 <= g <= 1).
  { intros HE HJ. rewrite (@esi_general _ HE HJ).
    unfold orbit_semiMajorAxis, orbit_period. rewrite Ho, Ha, Hp.
    rewrite (@or_default_present p 365) by lra.
    change (or_default (Some a) 1) with (if Req_dec_T a 0 then 1 else a).
    set (a' := if Req_dec_T a 0 then 1 else a).
    assert (Ha' : 0 < a').
    { unfold a'. destruct (Req_dec_T a 0); lra. }
    assert (H1 : 0 < similarityScore (radius planet / 6371) 1 <= 1).
    { apply similarityScore_bounds; [|lra].
      apply Rdiv_lt_0_compat; lra. }
    assert (H2 : 0 < similarityScore a' 1 <= 1)
      by (apply similarityScore_bounds; lra).
    assert (H3 : 0 < similarityScore p 365.25 <= 1)
      by (apply similarityScore_bounds; lra).
    set (x := similarityScore (radius planet / 6371) 1
              * similarityScore a' 1 * similarityScore p 365.25).
    assert (Hx : 0 < x <= 1)
      by (unfold x; apply unit_product; [apply unit_product|]; assumption).
    rewrite Math_pow_positive by exact (proj1 Hx).
    exists (Rpower x (1 / 3)). repeat split.
    - left. apply Rpower_positive.
    - apply Rpower_third_cube. exact (proj1 Hx).
    - left. apply Rpower_positive.
    - apply Rpower_le_1; [exact Hx|lra]. }
  repeat split.
  - apply esi_Earth.
  - apply esi_Jupiter.
  - intros HE HJ. destruct (Hgen HE HJ) as (g & Hg & He & Hb).
    exists g. repeat split; try apply Hg; [assumption|].
    apply clamp01_id. assumption.
  - destruct (string_dec (name planet) "Earth") as [HE|HE].
    { exists 1. split; [apply esi_Earth; assumption|lra]. }
    destruct (string_dec (name planet) "Jupiter") as [HJ|HJ].
    { exists 0.15. split; [apply esi_Jupiter; assumption|lra]. }
    destruct (Hgen HE HJ) as (g & Hg & He & Hb).
    exists (clamp01 g). split; [assumption|apply clamp01_bounds].
Qed.

(** The theorem at Kepler-22 b. *)
Lemma esi_geometric_mean_witness :
  exists e, calculateMockESI kepler22b = Some e /\ 0 <= e <= 1.
Proof.
  refine (proj2 (proj2 (proj2
    (@esi_geometric_mean kepler22b
       {| period := Some 289.9; semiMajorAxis := Some 0.849;
          eccentricity := 0; inclination := 89 |} 0.849 289.9
       eq_refl eq_refl eq_refl _ _ _)))); simpl; lra.
Defined.

(** Claim C1 as stated fails on a canonical record whose semi-major axis is
    zero: with Earth's radius and period the source returns 1, and 1 is not
    the index the claim describes, whose semi-major-axis score
    [1 - |(0 - 1) / (0 + 1)|] is 0. *)
Lemma esi_zero_axis_counterexample :
  calculateMockESI grazer = Some 1 /\
  ~ claimedESI (radius grazer) 0 365.25 1.
Proof.
  split.
  - rewrite esi_general by (simpl; discriminate).
    unfold orbit_semiMajorAxis, orbit_period. simpl.
    unfold or_default.
    destruct (Req_dec_T 0 0) as [_|H]; [|contradiction H; reflexivity].
    destruct (Req_dec_T 365.25 0) as [H|_]; [lra|].
    replace (6371 / 6371) with 1 by lra.
    rewrite !similarityScore_same by lra.
    rewrite Math_pow_positive by lra.
    rewrite !Rmult_1_r.
    replace (Rpower 1 (1 / 3)) with 1.
    + f_equal. apply clamp01_id. lra.
    + unfold Rpower. rewrite ln_1, Rmult_0_r, exp_0. reflexivity.
  - intros (g & [Hg0 Hg3] & He).
    assert (Hz : similarityScore 0 1 = 0).
    { unfold similarityScore.
      replace ((0 - 1) / (0 + 1)) with (Ropp 1) by lra.
      rewrite Rabs_Ropp, Rabs_R1. lra. }
    rewrite Hz, Rmult_0_r, Rmult_0_l in Hg3.
    assert (g = 0).
    { destruct (Req_dec_T g 0) as [Hg|Hg]; [assumption|].
      exfalso. exact (pow_nonzero g 3 Hg Hg3). }
    subst g. rewrite clamp01_id in He; lra.
Qed.

Lemma temperature_Earth (planet : Planet) :
  name planet = "Earth"%string -> calculateMockTemperature planet = Some 288.
Proof.
  intros H. unfold calculateMockTemperature. rewrite H. reflexivity.
Qed.

Lemma temperature_Jupiter (planet : Planet) :
  name planet = "Jupiter"%string ->
  calculateMockTemperature planet = Some 165.
Proof.
  intros H. unfold calculateMockTemperature. rewrite H. reflexivity.
Qed.

Lemma temperature_general (planet : Planet) :
  name planet <> "Earth"%string -> name planet <> "Jupiter"%string ->
  calculateMockTemperature planet =
  match Math_pow (or_default (orbit_semiMajorAxis planet) 1) (-0.5) with
  | Some pw => Some (IZR (Math_round (288 * pw)))
  | None => None
  end.
Proof.
  intros HE HJ. unfold calculateMockTemperature.
  rewrite (@name_is_not _ _ HE), (@name_is_not _ _ HJ).
  replace 1.0 with 1 by lra. reflexivity.
Qed.

(** Claim C2, amended.  For every record, with [a] the semi-major axis
    replaced by 1.0 when the field is absent or zero: [a] is not zero; a
    record named Earth yields 288 and one named Jupiter 165; any other
    record with [a > 0] yields [288 * a^(-0.5)], that is [288 / sqrt a],
    rounded to the nearest integer; with [a < 0] the result is [NaN]; and
    no record yields a negative number. *)
Theorem temperature_rounded (planet : Planet) :
  let a := or_default (orbit_semiMajorAxis planet) 1 in
  a <> 0 /\
  (name planet = "Earth"%string ->
   calculateMockTemperature planet = Some 288) /\
  (name planet = "Jupiter"%string ->
   calculateMockTemperature planet = Some 165) /\
  (name planet <> "Earth"%string -> name planet <> "Jupiter"%string ->
   0 < a ->
   calculateMockTemperature planet
   = Some (IZR (Math_round (288 * Rpower a (-0.5))))
   /\ 288 * Rpower a (-0.5) = 288 / sqrt a) /\
  (name planet <> "Earth"%string -> name planet <> "Jupiter"%string ->
   a < 0 -> calculateMockTemperature planet = None) /\
  (forall t, calculateMockTemperature planet = Some t -> 0 <= t).
Proof.
  intros a.
  assert (Ha : a <> 0) by (apply or_default_nonzero; lra).
  split; [exact Ha|].
  split; [apply temperature_Earth|].
  split; [apply temperature_Jupiter|].
  split; [|split].
  - intros HE HJ Hpos. rewrite (@temperature_general _ HE HJ).
    fold a. rewrite Math_pow_positive by assumption.
    split; [reflexivity|].
    rewrite Rpower_minus_half by assumption. reflexivity.
  - intros HE HJ Hneg. rewrite (@temperature_general _ HE HJ).
    fold a. rewrite Math_pow_negative by assumption. reflexivity.
  - intros t Ht.
    destruct (string_dec (name planet) "Earth") as [HE|HE].
    { rewrite (temperature_Earth _ HE) in Ht. injection Ht as <-. lra. }
    destruct (string_dec (name planet) "Jupiter") as [HJ|HJ].
    { rewrite (temperature_Jupiter _ HJ) in Ht. injection Ht as <-. lra. }
    rewrite (@temperature_general _ HE HJ) in Ht. fold a in Ht.
    destruct (Rlt_dec 0 a) as [Hpos|Hnpos].
    + rewrite Math_pow_positive in Ht by assumption.
      injection Ht as <-.
      apply (IZR_le 0). apply Math_round_nonneg.
      pose proof (Rpower_positive a (-0.5)). lra.
    + rewrite Math_pow_negative in Ht by lra. discriminate.
Qed.

Lemma farOut_axis : or_default (orbit_semiMajorAxis farOut) 1 = 25.
Proof.
  unfold orbit_semiMajorAxis. simpl. apply or_default_present. lra.
Qed.

(** The theorem at a planet 25 AU from its star. *)
Lemma temperature_rounded_witness :
  calculateMockTemperature farOut
  = Some (IZR (Math_round (288 * Rpower 25 (-0.5)))).
Proof.
  rewrite <- farOut_axis.
  refine (proj1 (proj1 (proj2 (proj2 (proj2 (temperature_rounded farOut))))
                   _ _ _)).
  - simpl. discriminate.
  - simpl. discriminate.
  - rewrite farOut_axis. lra.
Defined.

Lemma Rpower_25 : Rpower 25 (-0.5) = / 5.
Proof.
  rewrite Rpower_minus_half by lra.
  replace 25 with (5 * 5) by lra.
  rewrite sqrt_square by lra. reflexivity.
Qed.

(** Claim C2 as stated fails at 25 AU: [288 * 25^(-0.5)] is 57.6 and the
    source returns 58. *)
Lemma temperature_unrounded_counterexample :
  calculateMockTemperature farOut = Some 58 /\
  claimedTemperature farOut = 57.6 /\
  calculateMockTemperature farOut <> Some (claimedTemperature farOut).
Proof.
  assert (Hcode : calculateMockTemperature farOut = Some 58).
  { rewrite temperature_general by (simpl; discriminate).
    rewrite farOut_axis, Math_pow_positive by lra.
    rewrite Rpower_25. do 2 f_equal.
    apply Math_round_eq. lra. }
  assert (Hclaim : claimedTemperature farOut = 57.6).
  { unfold claimedTemperature.
    replace 1.0 with 1 by lra.
    rewrite farOut_axis, Rpower_25. simpl. lra. }
  split; [exact Hcode|]. split; [exact Hclaim|].
  rewrite Hcode, Hclaim. intros H. injection H as H. lra.
Qed.

Lemma rotationSpeed_formula (planet : Planet) (p m : R) :
  orbit_period planet = Some p -> p <> 0 ->
  rotationSpeed planet m = (2 * PI / p) / 86400 * (3600 / 60) * m.
Proof.
  intros Hp Hp0. unfold rotationSpeed.
  rewrite Hp, or_default_present by assumption. reflexivity.
Qed.

(** Claim C8.  For every record with a positive period, the per-frame angle
    is [(2 * PI / period) / 86400 * (3600 / 60)] times 100 when auto-rotate
    is on and times 1 when it is off; doubling the multiplier doubles the
    angle; and a frame of [animate], on the comparison page and on the
    explorer, adds exactly that angle to the rotation of the mesh. *)
Theorem rotation_linear_in_multiplier (planet : Planet) (p : R)
    (rotating : bool) :
  orbit_period planet = Some p -> 0 < p ->
  finalRotationSpeed planet rotating
  = (2 * PI / p) / 86400 * (3600 / 60) * (if rotating then 100 else 1)
  /\ (forall m, rotationSpeed planet (2 * m) = 2 * rotationSpeed planet m)
  /\ (forall (viewer : CategoryCompare.Viewer) (mesh : Mesh),
       CategoryCompare.planetMesh viewer = Some mesh ->
       CategoryCompare.currentPlanet viewer = Some planet ->
       CategoryCompare.autoRotate viewer = rotating ->
       option_map rotation_y
         (CategoryCompare.planetMesh (CategoryCompare.animateViewer viewer))
       = Some (rotation_y mesh + finalRotationSpeed planet rotating))
  /\ (forall (s : Explorer.State) (mesh : Mesh),
       Explorer.planetMesh s = Some mesh ->
       Explorer.currentPlanet s = Some planet ->
       Explorer.autoRotate s = rotating ->
       option_map rotation_y (Explorer.planetMesh (Explorer.animate s))
       = Some (rotation_y mesh + finalRotationSpeed planet rotating)).
Proof.
  intros Hp Hpos.
  assert (Hp0 : p <> 0) by lra.
  split; [|split; [|split]].
  - unfold finalRotationSpeed.
    rewrite (@rotationSpeed_formula planet p _ Hp Hp0).
    destruct rotating; reflexivity.
  - intros m. rewrite !(@rotationSpeed_formula planet p _ Hp Hp0). ring.
  - intros viewer mesh Hm Hc Hr. unfold CategoryCompare.animateViewer.
    rewrite Hm, Hc, Hr. reflexivity.
  - intros s mesh Hm Hc Hr. unfold Explorer.animate.
    rewrite Hm, Hc, Hr. reflexivity.
Qed.

(** The theorem at Kepler-22 b with auto-rotate on. *)
Lemma rotation_linear_in_multiplier_witness :
  finalRotationSpeed kepler22b true
  = (2 * PI / 289.9) / 86400 * (3600 / 60) * 100.
Proof.
  refine (proj1 (@rotation_linear_in_multiplier kepler22b 289.9 true
                   eq_refl _)).
  lra.
Defined.

End DerivationFacts.

(** ** Category comparison page *)

Section CategoryCompareFacts.

Import CategoryCompare.
Open Scope Z_scope.

(** *** The viewer operations and the candidate list *)

Lemma showPlanet_available (viewer : Viewer) (index : Z) :
  availablePlanets (showPlanet viewer index) = availablePlanets viewer.
Proof.
  unfold showPlanet.
  destruct ((index <? 0) || (index >=? _)); reflexivity.
Qed.

Lemma showPlanet_out_of_range (viewer : Viewer) (index : Z) :
  index < 0 \/ array_length (availablePlanets viewer) <= index ->
  showPlanet viewer index = viewer.
Proof.
  intros H. unfold showPlanet.
  destruct (Z.ltb_spec index 0); [reflexivity|].
  destruct (Z.geb_spec index (array_length (availablePlanets viewer)));
    [reflexivity|lia].
Qed.

Lemma showPlanet_in_range (viewer : Viewer) (index : Z) :
  0 <= index < array_length (availablePlanets viewer) ->
  currentPlanetIndex (showPlanet viewer index) = index /\
  currentPlanet (showPlanet viewer index)
  = array_get (availablePlanets viewer) index /\
  planetMesh (showPlanet viewer index)
  = option_map createPlanet (array_get (availablePlanets viewer) index) /\
  autoRotate (showPlanet viewer index) = autoRotate viewer.
Proof.
  intros H. unfold showPlanet.
  destruct (Z.ltb_spec index 0); [lia|].
  destruct (Z.geb_spec index (array_length (availablePlanets viewer)));
    [lia|].
  simpl. repeat split.
Qed.

Lemma previousPlanet_at_first (viewer : Viewer) :
  currentPlanetIndex viewer = 0 -> previousPlanet viewer = viewer.
Proof. intros H. unfold previousPlanet. rewrite H. reflexivity. Qed.

Lemma nextPlanet_at_last (viewer : Viewer) :
  currentPlanetIndex viewer = array_length (availablePlanets viewer) - 1 ->
  nextPlanet viewer = viewer.
Proof.
  intros H. unfold nextPlanet. rewrite H, Z.ltb_irrefl. reflexivity.
Qed.

Lemma getPlanetsForCategory_view (pg : Page) (category : string)
    (p : Planet) :
  In p (getPlanetsForCategory pg category) ->
  In p (solarSystemPlanets pg) \/ In p (exoplanets pg).
Proof.
  unfold getPlanetsForCategory.
  destruct (category =? "earth")%string.
  { intros H. apply filter_In in H. left. apply H. }
  destruct (category =? "jupiter")%string.
  { intros H. apply filter_In in H. left. apply H. }
  destruct (category =? "exoplanets")%string; intros H; right; exact H.
Qed.

(** Claim C5.  For every viewer and category tag, [changePlanetCategory]
    makes the candidate list the category's list, whose records all come
    from the loaded catalogs, and resets the index to 0; when the list is
    non-empty the viewer is Ready and displays the first record of the list;
    when it is empty the viewer is Empty (and what was displayed before
    stays as it was). *)
Theorem category_change_selects_first (pg : Page) (viewer : Viewer)
    (category : string) :
  let viewer' := changePlanetCategory pg viewer category in
  availablePlanets viewer' = getPlanetsForCategory pg category /\
  (forall p, In p (availablePlanets viewer') ->
             In p (solarSystemPlanets pg) \/ In p (exoplanets pg)) /\
  currentPlanetIndex viewer' = 0 /\
  autoRotate viewer' = autoRotate viewer /\
  match getPlanetsForCategory pg category with
  | first :: _ =>
      status viewer' = Ready /\
      currentPlanet viewer' = Some first /\
      planetMesh viewer' = Some (createPlanet first)
  | [] =>
      status viewer' = Empty /\
      currentPlanet viewer' = currentPlanet viewer /\
      planetMesh viewer' = planetMesh viewer
  end.
Proof.
  intros viewer'. subst viewer'. unfold changePlanetCategory.
  pose proof (@getPlanetsForCategory_view pg category) as Hview.
  destruct (getPlanetsForCategory pg category) as [|first rest] eqn:E.
  - simpl. repeat split. exact Hview.
  - assert (Hgt : (array_length (first :: rest) >? 0) = true)
      by (apply Z.gtb_lt; unfold array_length; simpl List.length; lia).
    rewrite Hgt.
    set (v0 := set_index (set_available viewer (first :: rest)) 0).
    assert (Hr : 0 <= 0 < array_length (availablePlanets v0))
      by (simpl; unfold array_length; simpl List.length; lia).
    destruct (showPlanet_in_range v0 Hr) as (Hi & Hc & Hm & Ha).
    unfold status. rewrite showPlanet_available, Hi, Hc, Hm, Ha.
    simpl. repeat split. exact Hview.
Qed.

(** The theorem on a viewer at the eighth of 25 exoplanets that switches to
    the Jupiter category. *)
Lemma category_change_selects_first_witness :
  let pg :=
    run catalogPage
        [ChangeCategory LeftSide "exoplanets"; ClickNext LeftSide;
         ClickNext LeftSide; ClickNext LeftSide; ClickNext LeftSide;
         ClickNext LeftSide; ClickNext LeftSide; ClickNext LeftSide] in
  currentPlanetIndex (leftViewer pg) = 7 /\
  currentPlanetIndex (changePlanetCategory pg (leftViewer pg) "jupiter") = 0
  /\ currentPlanet (changePlanetCategory pg (leftViewer pg) "jupiter")
     = Some jupiter.
Proof.
  split; [reflexivity|].
  set (pg := run catalogPage _).
  pose proof (@category_change_selects_first pg (leftViewer pg) "jupiter")
    as (_ & _ & Hindex & _ & Hfirst).
  split; [exact Hindex|].
  exact (proj1 (proj2 Hfirst)).
Defined.

(** Claim C3.  [syncRotation] computes [newState = !leftViewer.autoRotate]
    and sets the [autoRotate] flag of both viewers to it, on both comparison
    pages; from left on and right off, one call turns both off and a second
    call turns both on. *)
Theorem sync_rotation_forces_both :
  (forall pg : Page,
     let newState := negb (autoRotate (leftViewer pg)) in
     autoRotate (leftViewer (syncRotation pg)) = newState /\
     autoRotate (rightViewer (syncRotation pg)) = newState) /\
  (forall pg : Page,
     autoRotate (leftViewer pg) = true ->
     autoRotate (rightViewer pg) = false ->
     (autoRotate (leftViewer (syncRotation pg)) = false /\
      autoRotate (rightViewer (syncRotation pg)) = false) /\
     (autoRotate (leftViewer (syncRotation (syncRotation pg))) = true /\
      autoRotate (rightViewer (syncRotation (syncRotation pg))) = true)) /\
  (forall pg : Compare.Page,
     let newState := negb (Compare.autoRotate (Compare.leftViewer pg)) in
     Compare.autoRotate (Compare.leftViewer (Compare.syncRotation pg))
     = newState /\
     Compare.autoRotate (Compare.rightViewer (Compare.syncRotation pg))
     = newState).
Proof.
  split; [|split].
  - intros pg. split; reflexivity.
  - intros pg Hl Hr. simpl. rewrite Hl. simpl. repeat split.
  - intros pg. split; reflexivity.
Qed.

(** The theorem on the sample page after the right viewer's own toggle. *)
Lemma sync_rotation_forces_both_witness :
  let pg := handle samplePage (ClickAutoRotate RightSide) in
  (autoRotate (leftViewer (syncRotation pg)) = false /\
   autoRotate (rightViewer (syncRotation pg)) = false) /\
  (autoRotate (leftViewer (syncRotation (syncRotation pg))) = true /\
   autoRotate (rightViewer (syncRotation (syncRotation pg))) = true).
Proof.
  refine (proj1 (proj2 sync_rotation_forces_both)
            (handle samplePage (ClickAutoRotate RightSide)) _ _);
    reflexivity.
Defined.

End CategoryCompareFacts.

(** ** Text-search comparison page *)

Section CompareFacts.

Import Compare.
Open Scope Z_scope.

Lemma compare_showPlanet_in_range (planets : list Planet) (viewer : Viewer)
    (index : Z) (r : Planet) :
  array_get planets index = Some r ->
  currentPlanetIndex (showPlanet planets viewer index) = index /\
  currentPlanet (showPlanet planets viewer index) = Some r.
Proof.
  intros Hr. pose proof (array_get_some _ _ Hr) as Hrange.
  unfold showPlanet.
  destruct (Z.ltb_spec index 0); [lia|].
  destruct (Z.geb_spec index (array_length planets)); [lia|].
  simpl. split; [reflexivity|assumption].
Qed.

Lemma searchInput_nonempty (planets : list Planet) (viewer : Viewer)
    (value : string) :
  toLowerCase value <> ""%string ->
  searchInput planets viewer value =
  let matches :=
    filter_positions (matchesQuery (toLowerCase value)) planets 0 in
  if array_length matches =? 1 then
    match matches with
    | index :: _ => showPlanet planets viewer index
    | [] => viewer
    end
  else viewer.
Proof.
  intros Hq. unfold searchInput.
  apply String.eqb_neq in Hq. rewrite Hq. reflexivity.
Qed.

(** Claim C6, amended.  Typing a query that is not empty: if exactly one
    record of the catalog has the query, in lower case, as a substring of
    its lower-cased name, id or system, the viewer selects that record; if
    no record or more than one record matches, the viewer is unchanged.
    Typing an empty query changes nothing.  Pressing Enter selects the first
    record of the catalog whose name or id matches, however many records
    match, and changes nothing when none does. *)
Theorem search_selects_unique_match (planets : list Planet)
    (viewer : Viewer) (value : string) :
  let query := toLowerCase value in
  (query <> ""%string ->
   forall i r,
     array_get planets i = Some r -> matchesQuery query r = true ->
     (forall j r', array_get planets j = Some r' ->
                   matchesQuery query r' = true -> j = i) ->
     currentPlanetIndex (searchInput planets viewer value) = i /\
     currentPlanet (searchInput planets viewer value) = Some r) /\
  ((forall j r', array_get planets j = Some r' ->
                 matchesQuery query r' = false) ->
   searchInput planets viewer value = viewer) /\
  (forall i j ri rj,
     i <> j ->
     array_get planets i = Some ri -> matchesQuery query ri = true ->
     array_get planets j = Some rj -> matchesQuery query rj = true ->
     searchInput planets viewer value = viewer) /\
  (query = ""%string -> searchInput planets viewer value = viewer) /\
  (forall i r,
     array_get planets i = Some r -> matchesNameOrId query r = true ->
     (forall j r', j < i -> array_get planets j = Some r' ->
                   matchesNameOrId query r' = false) ->
     currentPlanetIndex (searchKeypress planets viewer "Enter" value) = i /\
     currentPlanet (searchKeypress planets viewer "Enter" value) = Some r) /\
  ((forall j r', array_get planets j = Some r' ->
                 matchesNameOrId query r' = false) ->
   searchKeypress planets viewer "Enter" value = viewer).
Proof.
  intros query.
  assert (Hempty : query = ""%string ->
                   searchInput planets viewer value = viewer).
  { intros Hq. unfold searchInput. fold query. rewrite Hq. reflexivity. }
  split; [|split; [|split; [|split; [|split]]]].
  - intros Hq i r Hr Hm Huniq.
    rewrite searchInput_nonempty by exact Hq. fold query. cbv zeta.
    rewrite (filter_positions_unique _ _ Hr Hm Huniq).
    change (array_length [i] =? 1) with true. cbv iota.
    apply compare_showPlanet_in_range. assumption.
  - intros Hnone.
    destruct (string_dec query "") as [Hq|Hq]; [auto|].
    rewrite searchInput_nonempty by exact Hq. fold query. cbv zeta.
    rewrite (filter_positions_none _ _ Hnone). reflexivity.
  - intros i j ri rj Hne Hi Hmi Hj Hmj.
    destruct (string_dec query "") as [Hq|Hq]; [auto|].
    rewrite searchInput_nonempty by exact Hq. fold query. cbv zeta.
    pose proof (filter_positions_several _ _ Hne Hi Hmi Hj Hmj) as Hlen.
    destruct (Z.eqb_spec
                (array_length (filter_positions (matchesQuery query)
                                                planets 0)) 1);
      [lia|reflexivity].
  - exact Hempty.
  - intros i r Hr Hm Hfirst. unfold searchKeypress. simpl. fold query.
    rewrite (find_position_first _ _ 0 Hr Hm Hfirst). simpl.
    apply compare_showPlanet_in_range. assumption.
  - intros Hnone. unfold searchKeypress. simpl. fold query.
    rewrite (find_position_none _ _ 0 Hnone). reflexivity.
Qed.

(** The theorem for the query "KOI-25" on a three-record catalog. *)
Lemma search_selects_unique_match_witness :
  let planets := [kepler22b; grazer; farOut] in
  currentPlanetIndex (searchInput planets leftViewer0 "KOI-25") = 2 /\
  currentPlanet (searchInput planets leftViewer0 "KOI-25") = Some farOut.
Proof.
  refine (proj1 (@search_selects_unique_match
                   [kepler22b; grazer; farOut] leftViewer0 "KOI-25")
            _ 2 farOut eq_refl eq_refl _).
  - discriminate.
  - intros j r' Hr' Hm.
    pose proof (array_get_some _ _ Hr') as Hrange.
    unfold array_length in Hrange. simpl in Hrange.
    assert (Hj : j = 0 \/ j = 1 \/ j = 2) by lia.
    destruct Hj as [->|[->| ->]]; [| |reflexivity];
      simpl in Hr'; injection Hr' as <-; vm_compute in Hm; discriminate.
Defined.

(** Claim C6 as stated fails for the query "Kepler" on a catalog with two
    Kepler planets: both records match, and pressing Enter moves the viewer
    from the second record to the first. *)
Lemma search_enter_counterexample :
  let planets := [kepler22b; kepler62f] in
  let viewer := showPlanet planets leftViewer0 1 in
  filter_positions (matchesQuery (toLowerCase "Kepler")) planets 0 = [0; 1]
  /\ currentPlanetIndex viewer = 1
  /\ currentPlanetIndex (searchKeypress planets viewer "Enter" "Kepler") = 0
  /\ searchKeypress planets viewer "Enter" "Kepler" <> viewer.
Proof.
  repeat split. intros H.
  apply (f_equal currentPlanetIndex) in H. vm_compute in H. discriminate.
Qed.

End CompareFacts.

(** ** Explorer: pagination and catalog loading *)

Section ExplorerFacts.

Import Explorer.
Open Scope Z_scope.

Lemma showPlanet_paging (s : State) (index : Z) :
  currentPage (showPlanet s index) = currentPage s /\
  planetsPerPage (showPlanet s index) = planetsPerPage s /\
  filteredPlanets (showPlanet s index) = filteredPlanets s.
Proof.
  unfold showPlanet. destruct (_ || _); repeat split.
Qed.

Lemma applyFilter_paging (s : State) :
  currentPage (applyFilter s) = currentPage s /\
  planetsPerPage (applyFilter s) = planetsPerPage s.
Proof.
  unfold applyFilter. destruct (_ =? _)%string; split; reflexivity.
Qed.

Lemma pageInRange_first (s : State) :
  0 < planetsPerPage s -> currentPage s = 0 -> pageInRange s.
Proof.
  intros Hpp H0. unfold pageInRange. rewrite H0.
  split; [lia|]. split; [reflexivity|].
  intros Hne.
  assert (Hlen : 0 < array_length (filteredPlanets s)).
  { pose proof (array_length_nonneg (filteredPlanets s)).
    destruct (Z.eq_dec (array_length (filteredPlanets s)) 0) as [Hz|Hz];
      [|lia].
    apply array_length_nil_iff in Hz. contradiction. }
  pose proof (Math_ceil_div_positive Hpp Hlen). lia.
Qed.

Lemma changeTypeFilter_first (s : State) (value : string) :
  currentPage (changeTypeFilter s value) = 0 /\
  planetsPerPage (changeTypeFilter s value) = planetsPerPage s.
Proof.
  unfold changeTypeFilter.
  destruct (applyFilter_paging
              (set_page (set_filter s value (filteredPlanets s)) 0))
    as [-> ->].
  split; reflexivity.
Qed.

Lemma nextPage_inRange (s : State) :
  0 < planetsPerPage s -> pageInRange s -> pageInRange (nextPage s).
Proof.
  intros Hpp (H0 & Hnil & Hmax). unfold nextPage.
  destruct (Z.ltb_spec (currentPage s)
              (Math_ceil_div (array_length (filteredPlanets s))
                             (planetsPerPage s) - 1)) as [Hlt|Hge];
    [|repeat split; assumption].
  unfold pageInRange. simpl. split; [lia|]. split; [|lia].
  intros Hempty. rewrite Hempty in Hlt.
  change (array_length (@nil Planet)) with 0 in Hlt.
  rewrite Math_ceil_div_0 in Hlt by assumption. lia.
Qed.

Lemma prevPage_inRange (s : State) :
  pageInRange s -> pageInRange (prevPage s).
Proof.
  intros (H0 & Hnil & Hmax). unfold prevPage.
  destruct (Z.gtb_spec (currentPage s) 0) as [Hgt|Hle];
    [|repeat split; assumption].
  unfold pageInRange. simpl. split; [lia|]. split.
  - intros Hempty. apply Hnil in Hempty. lia.
  - intros Hne. apply Hmax in Hne. lia.
Qed.

Lemma handlePage_inRange (s : State) (e : PageEvent) :
  positiveSize e -> 0 < planetsPerPage s -> pageInRange s ->
  pageInRange (handlePage s e) /\ 0 < planetsPerPage (handlePage s e).
Proof.
  intros He Hpp Hin. destruct e as [| |value|value]; simpl.
  - split; [apply prevPage_inRange; assumption|].
    unfold prevPage. destruct (_ >? _); assumption.
  - split; [apply nextPage_inRange; assumption|].
    unfold nextPage. destruct (_ <? _); assumption.
  - destruct (changeTypeFilter_first s value) as [Hc Hp].
    split; [apply pageInRange_first|]; rewrite ?Hp; assumption.
  - split; [apply pageInRange_first|]; simpl; try reflexivity; exact He.
Qed.

Lemma runPage_inRange (events : list PageEvent) (s : State) :
  Forall positiveSize events -> 0 < planetsPerPage s -> pageInRange s ->
  pageInRange (runPage s events).
Proof.
  revert s. induction events as [|e events IH]; intros s Hev Hpp Hin.
  - exact Hin.
  - inversion Hev as [|? ? He Hev']; subst. simpl.
    destruct (handlePage_inRange e He Hpp Hin) as [Hin' Hpp'].
    apply IH; assumption.
Qed.

Lemma init_inRange (koiData keplerData : option (list Planet))
    (exoplanetData : option (list LegacyPlanet)) :
  pageInRange (init koiData keplerData exoplanetData) /\
  planetsPerPage (init koiData keplerData exoplanetData) = 100.
Proof.
  unfold init.
  set (s := populatePlanetSelect _).
  assert (Hs : pageInRange s /\ planetsPerPage s = 100).
  { split; [apply pageInRange_first; simpl; [lia|reflexivity]|reflexivity]. }
  destruct (_ >? _); [|exact Hs].
  destruct (showPlanet_paging s 0) as (Hc & Hp & Hf).
  destruct Hs as [(H0 & Hnil & Hmax) Hpp].
  unfold pageInRange. rewrite Hc, Hp, Hf. repeat split; assumption.
Qed.

(** Claim C9.  Changing the type filter or the page size sets [currentPage]
    to 0; after either change, for a positive page size, [currentPage] lies
    in [0, ceil(filteredPlanets.length / planetsPerPage) - 1], or is 0 when
    the filtered list is empty; [nextPage] and [prevPage] keep it in that
    range; and so does every run of pagination events from [init]. *)
Theorem page_index_stays_in_range :
  (forall s value, currentPage (changeTypeFilter s value) = 0) /\
  (forall s value, currentPage (changePlanetsPerPage s value) = 0) /\
  (forall s value,
     0 < planetsPerPage s -> pageInRange (changeTypeFilter s value)) /\
  (forall s value,
     0 < value -> pageInRange (changePlanetsPerPage s value)) /\
  (forall s,
     0 < planetsPerPage s -> pageInRange s ->
     pageInRange (nextPage s) /\ pageInRange (prevPage s)) /\
  (forall koiData keplerData exoplanetData events,
     Forall positiveSize events ->
     pageInRange (runPage (init koiData keplerData exoplanetData) events)).
Proof.
  split; [|split; [|split; [|split; [|split]]]].
  - intros s value. apply changeTypeFilter_first.
  - reflexivity.
  - intros s value Hpp.
    destruct (changeTypeFilter_first s value) as [Hc Hp].
    apply pageInRange_first; rewrite ?Hp; assumption.
  - intros s value Hv. apply pageInRange_first; [exact Hv|reflexivity].
  - intros s Hpp Hin.
    split; [apply nextPage_inRange|apply prevPage_inRange]; assumption.
  - intros koiData keplerData exoplanetData events Hev.
    destruct (init_inRange koiData keplerData exoplanetData) as [Hin Hpp].
    apply runPage_inRange; [assumption|lia|assumption].
Qed.

(** The theorem on the scenario of the specification: 25 planets, 10 per
    page; the last page is page 2; a page size of 100, or a filter that
    matches nothing, brings the page back to 0. *)
Lemma page_index_stays_in_range_witness :
  let s := runPage (init (Some sampleCatalog) None None)
                   [SelectPerPage 10; ClickNextPage; ClickNextPage;
                    ClickNextPage] in
  currentPage s = 2 /\
  pageInRange s /\
  currentPage (changePlanetsPerPage s 100) = 0 /\
  filteredPlanets (changeTypeFilter s "Gas Giant") = [] /\
  currentPage (changeTypeFilter s "Gas Giant") = 0.
Proof.
  split; [reflexivity|]. split.
  - refine (proj2 (proj2 (proj2 (proj2 (proj2 page_index_stays_in_range))))
              (Some sampleCatalog) None None
              [SelectPerPage 10; ClickNextPage; ClickNextPage; ClickNextPage]
              _).
    repeat constructor.
  - repeat split.
Defined.

(** Claim C7.  When every source fails, the explorer's loader returns the
    single built-in record, but the loaders of both comparison pages return
    an empty catalog (the category page already when one of its two sources
    fails), and the category page then has two Empty viewers that display
    nothing. *)
Theorem loader_all_sources_fail :
  Explorer.loadPlanetData None None None = [examplePlanet] /\
  Compare.loadPlanetData None None None = [] /\
  (forall solarResponse pg,
     let pg' := CategoryCompare.loadPlanetData solarResponse None pg in
     CategoryCompare.solarSystemPlanets pg' = [] /\
     CategoryCompare.exoplanets pg' = [] /\
     CategoryCompare.planets pg' = []) /\
  (let pg := CategoryCompare.ready None None in
   CategoryCompare.planets pg = [] /\
   CategoryCompare.status (CategoryCompare.leftViewer pg)
   = CategoryCompare.Empty /\
   CategoryCompare.status (CategoryCompare.rightViewer pg)
   = CategoryCompare.Empty /\
   CategoryCompare.currentPlanet (CategoryCompare.leftViewer pg) = None /\
   CategoryCompare.currentPlanet (CategoryCompare.rightViewer pg) = None).
Proof.
  split; [reflexivity|]. split; [reflexivity|]. split.
  - intros [solar|] pg; repeat split.
  - repeat split.
Qed.

End ExplorerFacts.

(** * Further properties of the pages *)

(** ** Presentation of a planet *)

Section PresentationFacts.

Import Presentation.
Open Scope R_scope.

Lemma clampScale_bounds (x : R) : 0.3 <= Rmin (Rmax x 0.3) 5 <= 5.
Proof.
  split.
  - apply Rmin_glb; [apply Rmax_r|lra].
  - apply Rmin_r.
Qed.

Lemma clampScale_inside (x : R) :
  0.3 <= x <= 5 -> Rmin (Rmax x 0.3) 5 = x.
Proof.
  intros [H0 H1]. rewrite (Rmax_left x 0.3) by assumption.
  apply Rmin_left. assumption.
Qed.

Lemma scaleFactor_default (planetData : Planet) :
  radius planetData = 0 -> scaleFactor planetData = 1.
Proof.
  intros H. unfold scaleFactor, or_default. cbv zeta.
  destruct (Req_dec_T (radius planetData) 0); [|contradiction].
  replace (6371 / 6371) with 1 by lra.
  rewrite Rmax_left by lra. apply Rmin_left. lra.
Qed.

Lemma clampScale_monotone (x y : R) :
  x <= y -> Rmin (Rmax x 0.3) 5 <= Rmin (Rmax y 0.3) 5.
Proof.
  intros H. apply Rle_min_compat_r. apply Rle_max_compat_r. assumption.
Qed.

(** X1.  Every planet is drawn between 0.3 and 5 times the base size,
    whatever its radius: the sphere's radius lies between 0.6 and 10. *)
Theorem scaleFactor_bounded (planetData : Planet) :
  0.3 <= scaleFactor planetData <= 5 /\
  0.6 <= actualSize planetData <= 10.
Proof.
  pose proof (clampScale_bounds
                (or_default (Some (radius planetData)) 6371 / 6371)) as H.
  unfold actualSize, planetSize, scaleFactor. cbv zeta. lra.
Qed.

(** X2.  Between 0.3 and 5 Earth radii the scale is the radius in Earth
    radii; a missing (zero) radius is drawn at Earth's size; from 5 Earth
    radii on the scale is 5; and among records that have a radius, a larger
    radius never gives a smaller scale. *)
Theorem scaleFactor_proportional_and_monotone :
  (forall planetData,
     0.3 * 6371 <= radius planetData <= 5 * 6371 ->
     scaleFactor planetData = radius planetData / 6371) /\
  (forall planetData, radius planetData = 0 -> scaleFactor planetData = 1) /\
  (forall planetData, 5 * 6371 <= radius planetData ->
                      scaleFactor planetData = 5) /\
  (forall p q,
     radius p <> 0 -> radius q <> 0 -> radius p <= radius q ->
     scaleFactor p <= scaleFactor q).
Proof.
  split; [|split; [|split]].
  - intros planetData H. unfold scaleFactor. cbv zeta.
    rewrite or_default_present by lra.
    apply clampScale_inside. lra.
  - apply scaleFactor_default.
  - intros planetData H. unfold scaleFactor. cbv zeta.
    rewrite or_default_present by lra.
    rewrite Rmax_left by lra. apply Rmin_right. lra.
  - intros p q Hp Hq Hle. unfold scaleFactor. cbv zeta.
    rewrite !or_default_present by assumption.
    apply clampScale_monotone. lra.
Qed.

Lemma scaleFactor_proportional_and_monotone_witness :
  scaleFactor earth = 1 /\ scaleFactor jupiter = 5 /\
  scaleFactor earth <= scaleFactor kepler22b.
Proof.
  destruct scaleFactor_proportional_and_monotone as (Hband & _ & Hbig & Hmono).
  split; [|split].
  - rewrite (Hband earth) by (simpl; lra). simpl. lra.
  - apply (Hbig jupiter). simpl. lra.
  - apply (Hmono earth kepler22b); simpl; lra.
Defined.

Lemma hi_general (planet : Planet) :
  name planet <> "Earth"%string -> name planet <> "Jupiter"%string ->
  calculateMockHI planet =
  match Derivation.calculateMockTemperature planet with
  | Some temp =>
      Some (clamp01 ((Rmax 0 (1 - Rabs (radius planet / 6371 - 1) / 0.5)
                      + Rmax 0 (1 - Rabs (temp - 288) / 60)) / 2))
  | None => None
  end.
Proof.
  intros HE HJ. unfold calculateMockHI.
  rewrite (@name_is_not _ _ HE), (@name_is_not _ _ HJ).
  replace 1.0 with 1 by lra. reflexivity.
Qed.

Lemma score_bounds (d w : R) :
  0 < w -> 0 <= Rmax 0 (1 - Rabs d / w) <= 1.
Proof.
  intros Hw. split; [apply Rmax_l|].
  apply Rmax_lub; [lra|].
  assert (0 <= Rabs d / w).
  { apply Rmult_le_pos; [apply Rabs_pos|]. left. apply Rinv_0_lt_compat, Hw. }
  lra.
Qed.

Lemma score_zero (d w : R) :
  0 < w -> (Rmax 0 (1 - Rabs d / w) = 0 <-> w <= Rabs d).
Proof.
  intros Hw.
  assert (Hdiv : Rabs d / w * w = Rabs d) by (field; lra).
  split.
  - intros H.
    assert (1 - Rabs d / w <= 0) by (rewrite <- H; apply Rmax_r).
    nra.
  - intros H. apply Rmax_left. 
    assert (1 <= Rabs d / w).
    { apply (Rmult_le_reg_r w); [assumption|]. rewrite Hdiv. lra. }
    lra.
Qed.

Lemma score_one (d w : R) :
  0 < w -> (Rmax 0 (1 - Rabs d / w) = 1 <-> d = 0).
Proof.
  intros Hw. split.
  - intros H.
    assert (Hd : 0 <= Rabs d / w).
    { apply Rmult_le_pos; [apply Rabs_pos|]. left.
      apply Rinv_0_lt_compat, Hw. }
    assert (Hm : Rmax 0 (1 - Rabs d / w) = 1 - Rabs d / w).
    { apply Rmax_right.
      destruct (Rle_dec 0 (1 - Rabs d / w)); [assumption|].
      rewrite Rmax_left in H by lra. lra. }
    rewrite Hm in H.
    assert (Hz : Rabs d / w = 0) by lra.
    assert (Ha : Rabs d = 0).
    { replace (Rabs d) with (Rabs d / w * w) by (field; lra).
      rewrite Hz. ring. }
    destruct (Req_dec_T d 0) as [|Hne]; [assumption|].
    apply Rabs_no_R0 in Hne. contradiction.
  - intros ->. rewrite Rabs_R0. unfold Rdiv. rewrite Rmult_0_l, Rminus_0_r.
    apply Rmax_right. lra.
Qed.

(** X3.  The habitability index is 1.0 for a record named Earth and 0.05
    for one named Jupiter; whenever it is a number it lies in [0,1]; and it
    is [NaN] exactly when the temperature is. *)
Theorem habitabilityIndex_bounded (planet : Planet) :
  (name planet = "Earth"%string -> calculateMockHI planet = Some 1) /\
  (name planet = "Jupiter"%string -> calculateMockHI planet = Some 0.05) /\
  (forall h, calculateMockHI planet = Some h -> 0 <= h <= 1) /\
  (calculateMockHI planet = None <->
   Derivation.calculateMockTemperature planet = None).
Proof.
  split; [|split; [|split]].
  - intros H. unfold calculateMockHI. rewrite (@name_is _ _ H).
    f_equal. lra.
  - intros H. unfold calculateMockHI. rewrite H. reflexivity.
  - intros h Hh.
    destruct (string_dec (name planet) "Earth") as [HE|HE].
    { unfold calculateMockHI in Hh. rewrite (@name_is _ _ HE) in Hh.
      injection Hh as <-. lra. }
    destruct (string_dec (name planet) "Jupiter") as [HJ|HJ].
    { unfold calculateMockHI in Hh. rewrite HJ in Hh. simpl in Hh.
      injection Hh as <-. lra. }
    rewrite (@hi_general _ HE HJ) in Hh.
    destruct (Derivation.calculateMockTemperature planet);
      [|discriminate].
    injection Hh as <-. apply clamp01_bounds.
  - destruct (string_dec (name planet) "Earth") as [HE|HE].
    { unfold calculateMockHI.
      rewrite (@temperature_Earth _ HE), (@name_is _ _ HE).
      split; discriminate. }
    destruct (string_dec (name planet) "Jupiter") as [HJ|HJ].
    { unfold calculateMockHI.
      rewrite (@temperature_Jupiter _ HJ), HJ. simpl.
      split; discriminate. }
    rewrite (@hi_general _ HE HJ).
    destruct (Derivation.calculateMockTemperature planet);
      split; intros H; try discriminate; reflexivity.
Qed.

Lemma habitabilityIndex_bounded_witness :
  calculateMockHI earth = Some 1 /\ calculateMockHI jupiter = Some 0.05.
Proof.
  split.
  - refine (proj1 (habitabilityIndex_bounded earth) _). reflexivity.
  - refine (proj1 (proj2 (habitabilityIndex_bounded jupiter)) _).
    reflexivity.
Defined.

(** X4.  For a record named neither Earth nor Jupiter with temperature
    [temp]: the habitability index is 0 exactly when the radius is at least
    half an Earth radius away from Earth's and the temperature at least
    60 K away from 288 K, and it is 1 exactly when the radius is Earth's and
    the temperature is 288 K. *)
Theorem habitabilityIndex_window (planet : Planet) (temp : R) :
  name planet <> "Earth"%string -> name planet <> "Jupiter"%string ->
  Derivation.calculateMockTemperature planet = Some temp ->
  (calculateMockHI planet = Some 0 <->
   0.5 <= Rabs (radius planet / 6371 - 1) /\ 60 <= Rabs (temp - 288)) /\
  (calculateMockHI planet = Some 1 <->
   radius planet = 6371 /\ temp = 288).
Proof.
  intros HE HJ Ht. rewrite (@hi_general _ HE HJ), Ht.
  set (rs := Rmax 0 (1 - Rabs (radius planet / 6371 - 1) / 0.5)).
  set (ts := Rmax 0 (1 - Rabs (temp - 288) / 60)).
  assert (Hrs : 0 <= rs <= 1) by (apply score_bounds; lra).
  assert (Hts : 0 <= ts <= 1) by (apply score_bounds; lra).
  rewrite clamp01_id by lra.
  pose proof (@score_zero (radius planet / 6371 - 1) 0.5 ltac:(lra)) as Hr0.
  pose proof (@score_zero (temp - 288) 60 ltac:(lra)) as Ht0.
  pose proof (@score_one (radius planet / 6371 - 1) 0.5 ltac:(lra)) as Hr1.
  pose proof (@score_one (temp - 288) 60 ltac:(lra)) as Ht1.
  fold rs in Hr0, Hr1. fold ts in Ht0, Ht1.
  split; split.
  - intros H. injection H as H.
    split; [apply Hr0|apply Ht0]; lra.
  - intros [H1 H2]. apply Hr0 in H1. apply Ht0 in H2.
    f_equal. lra.
  - intros H. injection H as H.
    assert (rs = 1) by lra. assert (ts = 1) by lra.
    split; [apply Hr1 in H0|apply Ht1 in H1]; lra.
  - intros [H1 H2].
    assert (rs = 1) by (apply Hr1; rewrite H1; lra).
    assert (ts = 1) by (apply Ht1; lra).
    f_equal. lra.
Qed.

Lemma grazer_temperature :
  Derivation.calculateMockTemperature grazer = Some 288.
Proof.
  rewrite temperature_general by (simpl; discriminate).
  unfold orbit_semiMajorAxis. simpl. unfold or_default.
  destruct (Req_dec_T 0 0) as [_|H]; [|contradiction H; reflexivity].
  rewrite Math_pow_positive by lra.
  replace (Rpower 1 (-0.5)) with 1
    by (unfold Rpower; rewrite ln_1, Rmult_0_r, exp_0; reflexivity).
  do 2 f_equal. apply Math_round_eq. lra.
Qed.

Lemma habitabilityIndex_window_witness : calculateMockHI grazer = Some 1.
Proof.
  refine (proj2 (proj2 (@habitabilityIndex_window grazer 288 _ _
                          grazer_temperature)) _).
  - simpl. discriminate.
  - simpl. discriminate.
  - simpl. split; reflexivity.
Defined.

Lemma random_index (random : R) (n : Z) :
  (0 < n)%Z -> 0 <= random < 1 ->
  (0 <= Zfloor (random * IZR n) < n)%Z.
Proof.
  intros Hn [H0 H1].
  assert (Hn' : 0 < IZR n) by (apply (IZR_lt 0); assumption).
  pose proof (Zfloor_bound (random * IZR n)) as [Hlo Hhi].
  split.
  - apply Zfloor_lub. simpl. nra.
  - apply lt_IZR. nra.
Qed.

Lemma random_pick {A : Type} (a : list A) (random : R) :
  a <> [] -> 0 <= random < 1 ->
  exists x, array_get a (Zfloor (random * IZR (array_length a))) = Some x
            /\ In x a.
Proof.
  intros Ha Hr.
  assert (Hlen : (0 < array_length a)%Z).
  { pose proof (array_length_nonneg a).
    destruct (Z.eq_dec (array_length a) 0) as [Hz|Hz]; [|lia].
    apply array_length_nil_iff in Hz. contradiction. }
  destruct (array_get_in_range a (random_index Hlen Hr)) as [x Hx].
  exists x. split; [assumption|].
  unfold array_get in Hx.
  destruct (_ && _); [|discriminate].
  apply nth_error_In in Hx. assumption.
Qed.

(** X5.  Whatever [Math.random()] returns, [determinePlanetType] returns a
    category (never [undefined]); the category is decided by the size alone
    above 1.5 and below 0.5 Earth radii, and is one of the four random
    worlds in between. *)
Theorem texture_type_always_defined (relativeSize random : R) :
  0 <= random < 1 ->
  exists t,
    determinePlanetType relativeSize random = Some t /\
    (t = gas_giant <-> 4 < relativeSize) /\
    (t = super_earth <-> 1.5 < relativeSize <= 4) /\
    (t = small_rocky <-> relativeSize < 0.5) /\
    (0.5 <= relativeSize <= 1.5 ->
     In t [rocky_world; ice_world; desert_world; ocean_world]).
Proof.
  intros Hr. unfold determinePlanetType.
  destruct (Rlt_dec 4 relativeSize) as [H4|H4].
  { exists gas_giant. split; [reflexivity|].
    repeat split; try discriminate; try tauto; intros; lra. }
  destruct (Rlt_dec 1.5 relativeSize) as [H15|H15].
  { exists super_earth. split; [reflexivity|].
    repeat split; try discriminate; try tauto; intros; lra. }
  destruct (Rlt_dec relativeSize 0.5) as [H05|H05].
  { exists small_rocky. split; [reflexivity|].
    repeat split; try discriminate; try tauto; intros; lra. }
  cbv zeta.
  destruct (@random_pick _ [rocky_world; ice_world; desert_world;
                            ocean_world] random ltac:(discriminate) Hr)
    as (t & Ht & Hin).
  exists t. split; [exact Ht|].
  assert (Hmid : t <> gas_giant /\ t <> super_earth /\ t <> small_rocky).
  { simpl in Hin. repeat split; intros ->;
      decompose [or] Hin; try discriminate; contradiction. }
  destruct Hmid as (Hg & Hs & Hsr).
  repeat split; intros; try contradiction; try lra; try assumption.
Qed.

Lemma texture_type_always_defined_witness :
  exists t, determinePlanetType 1 0.6 = Some t
            /\ In t [rocky_world; ice_world; desert_world; ocean_world].
Proof.
  destruct (@texture_type_always_defined 1 0.6 ltac:(lra))
    as (t & Ht & _ & _ & _ & Hin).
  exists t. split; [exact Ht|]. apply Hin. lra.
Defined.

(** X6.  A record without a radius is drawn at Earth's size by
    [createPlanet], which reads the radius as [radius || 6371], but painted
    as a small rocky body without atmospheric glow by
    [generateRealisticTexture], which reads it as [radius || 1]. *)
Theorem missing_radius_is_earth_sized_but_small_rocky (planetData : Planet)
    (random : R) :
  radius planetData = 0 ->
  scaleFactor planetData = 1 /\
  generateRealisticTexture planetData random = (RockyWorldTexture, false).
Proof.
  intros H. split.
  - apply scaleFactor_default. exact H.
  - unfold generateRealisticTexture, determinePlanetType, or_default.
    cbv zeta.
    destruct (Req_dec_T (radius planetData) 0); [|contradiction].
    destruct (Rlt_dec 4 (1 / 6371)); [lra|].
    destruct (Rlt_dec 1.5 (1 / 6371)); [lra|].
    destruct (Rlt_dec (1 / 6371) 0.5); [|lra].
    destruct (Rlt_dec 0.5 (1 / 6371)); [lra|reflexivity].
Qed.

Lemma missing_radius_is_earth_sized_but_small_rocky_witness :
  scaleFactor unsized = 1 /\
  generateRealisticTexture unsized 0.3 = (RockyWorldTexture, false).
Proof.
  refine (@missing_radius_is_earth_sized_but_small_rocky unsized 0.3 _).
  reflexivity.
Defined.

Lemma exoplanetTextures_value :
  filter (fun t => negb (includes t "2k_")) availableTextures
  = ["GJ_504_b.jpg"; "HAT-P-11_b.jpg"; "HD_189733_b.jpg";
     "Kepler-22_b.jpg"; "Kepler-452_b.jpg"; "Kepler-7_b.jpg";
     "OGLE-2005-BLG-390L_b.jpg"; "Proxima_Cen_b.jpg"; "YZ_Cet_d.jpg"]%string.
Proof. vm_compute. reflexivity. Qed.

(** X7.  [loadPlanetTexture] always asks for a file of [availableTextures]:
    the record's own texture when it is listed, and otherwise a random one
    that is never one of the two [2k_] (Earth, Jupiter) textures. *)
Theorem texture_is_always_available (texture : option string) (random : R) :
  0 <= random < 1 ->
  exists file,
    loadPlanetTexture texture random = Some file /\
    In file availableTextures /\
    (forall t, texture = Some t -> In t availableTextures -> file = t) /\
    ((forall t, texture = Some t -> ~ In t availableTextures) ->
     includes file "2k_" = false).
Proof.
  intros Hr. unfold loadPlanetTexture. cbv zeta.
  destruct (@random_pick _
              (filter (fun t => negb (includes t "2k_")) availableTextures)
              random) as (file & Hfile & Hin).
  { rewrite exoplanetTextures_value. discriminate. }
  { exact Hr. }
  apply filter_In in Hin. destruct Hin as [Hav H2k].
  apply negb_true_iff in H2k.
  assert (Hlisted : forall t,
            existsb (fun t' => (t' =? t)%string) availableTextures = true
            <-> In t availableTextures).
  { intros t. rewrite existsb_exists. split.
    - intros (t' & Hin & Heq). apply String.eqb_eq in Heq. subst. exact Hin.
    - intros Hin. exists t. split; [exact Hin|apply String.eqb_refl]. }
  destruct texture as [t|].
  - destruct (negb (t =? "")%string
              && existsb (fun t' => (t' =? t)%string) availableTextures)
      eqn:E.
    + apply andb_true_iff in E. destruct E as [_ E]. apply Hlisted in E.
      exists t. split; [reflexivity|]. split; [exact E|]. split.
      * intros t' Ht' _. injection Ht' as <-. reflexivity.
      * intros Hnot. exfalso. exact (Hnot t eq_refl E).
    + exists file. split; [exact Hfile|]. split; [exact Hav|]. split.
      * intros t' Ht' Hin'. injection Ht' as <-.
        apply andb_false_iff in E. destruct E as [E|E].
        -- apply negb_false_iff, String.eqb_eq in E. subst t.
           exfalso. vm_compute in Hin'. intuition discriminate.
        -- apply Hlisted in Hin'. rewrite Hin' in E. discriminate.
      * intros _. exact H2k.
  - exists file. split; [exact Hfile|]. split; [exact Hav|]. split.
    + intros t Ht. discriminate.
    + intros _. exact H2k.
Qed.

Lemma texture_is_always_available_witness :
  exists file,
    loadPlanetTexture (Some "earth.jpg"%string) 0.99 = Some file /\
    includes file "2k_" = false.
Proof.
  destruct (@texture_is_always_available (Some "earth.jpg"%string) 0.99
              ltac:(lra)) as (file & Hfile & _ & _ & H2k).
  exists file. split; [exact Hfile|]. apply H2k.
  intros t Ht Hin. injection Ht as <-.
  vm_compute in Hin. intuition discriminate.
Defined.

End PresentationFacts.

(** ** What the category comparison page shows *)

Section CategoryViewFacts.

Import CategoryCompare CategoryView.
Open Scope Z_scope.

Lemma getPlanetsForCategory_sameCatalogs (pg pg' : Page) (category : string) :
  sameCatalogs pg pg' ->
  getPlanetsForCategory pg' category = getPlanetsForCategory pg category.
Proof.
  intros (Hs & He & _). unfold getPlanetsForCategory. rewrite Hs, He.
  reflexivity.
Qed.

Lemma handle_sameCatalogs (pg : Page) (e : Event) :
  sameCatalogs pg (handle pg e).
Proof.
  destruct e as [s|s|s|s category|s selectedIndex| |s|code|]; simpl;
    try (destruct s; repeat split).
  - repeat split.
  - unfold handleKeyboard.
    destruct (code =? "ArrowLeft")%string;
      [destruct (lastFocusedViewer pg); repeat split|].
    destruct (code =? "ArrowRight")%string;
      [destruct (lastFocusedViewer pg); repeat split|].
    destruct (code =? "Space")%string;
      [destruct (lastFocusedViewer pg); repeat split|repeat split].
  - repeat split.
Qed.

Lemma sameCatalogs_trans (a b c : Page) :
  sameCatalogs a b -> sameCatalogs b c -> sameCatalogs a c.
Proof.
  intros (H1 & H2 & H3) (H4 & H5 & H6).
  repeat split; congruence.
Qed.

Lemma run_sameCatalogs (events : list Event) (pg : Page) :
  sameCatalogs pg (run pg events).
Proof.
  revert pg. unfold run.
  induction events as [|e events IH]; intros pg; simpl.
  - repeat split.
  - exact (sameCatalogs_trans (handle_sameCatalogs pg e) (IH _)).
Qed.

(** *** The candidate lists under the viewer operations *)

Lemma category_list (pg : Page) (viewer : Viewer) (category : string) :
  availablePlanets (changePlanetCategory pg viewer category)
  = getPlanetsForCategory pg category /\
  currentPlanetIndex (changePlanetCategory pg viewer category) = 0.
Proof.
  unfold changePlanetCategory.
  destruct (Z.gtb_spec (array_length (getPlanetsForCategory pg category)) 0)
    as [Hpos|Hzero]; [|split; reflexivity].
  rewrite showPlanet_available.
  destruct (@showPlanet_in_range
              (set_index (set_available viewer
                            (getPlanetsForCategory pg category)) 0) 0)
    as [-> _]; [simpl; lia|].
  split; reflexivity.
Qed.

Lemma nextPlanet_available (viewer : Viewer) :
  availablePlanets (nextPlanet viewer) = availablePlanets viewer.
Proof.
  unfold nextPlanet.
  destruct (_ <? _); [apply showPlanet_available|reflexivity].
Qed.

Lemma previousPlanet_available (viewer : Viewer) :
  availablePlanets (previousPlanet viewer) = availablePlanets viewer.
Proof.
  unfold previousPlanet.
  destruct (_ >? _); [apply showPlanet_available|reflexivity].
Qed.

Lemma animateViewer_available (viewer : Viewer) :
  availablePlanets (animateViewer viewer) = availablePlanets viewer.
Proof.
  unfold animateViewer.
  destruct (planetMesh viewer); [destruct (currentPlanet viewer)|];
    reflexivity.
Qed.

(** *** Invariants of one viewer *)

(** A property of a viewer that [showPlanet], a change of the auto-rotate
    flag, a frame of [animate] and, when the event is a category change,
    [changePlanetCategory] preserve holds of the viewer on side [s] after
    the event. *)
Lemma handle_viewer_invariant (P : Viewer -> Prop) (pg : Page) (e : Event)
    (s : Side) :
  (forall v i, P v -> P (showPlanet v i)) ->
  (forall v b, P v -> P (set_autoRotate v b)) ->
  (forall s' category v,
     e = ChangeCategory s' category ->
     P v -> P (changePlanetCategory pg v category)) ->
  (forall v, P v -> P (animateViewer v)) ->
  P (viewerOf pg s) -> P (viewerOf (handle pg e) s).
Proof.
  intros Hshow Hauto Hcategory Hframe Hs.
  assert (Hnext : forall v, P v -> P (nextPlanet v)).
  { intros v Hv. unfold nextPlanet. destruct (_ <? _); auto. }
  assert (Hprev : forall v, P v -> P (previousPlanet v)).
  { intros v Hv. unfold previousPlanet. destruct (_ >? _); auto. }
  assert (Hset : forall s' v,
            (s' = s -> P v) -> P (viewerOf (set_viewer pg s' v) s)).
  { intros s' v Hv. destruct s, s'; simpl; auto. }
  destruct e as [s'|s'|s'|s' category|s' selectedIndex| |s'|code|]; simpl.
  - apply Hset. intros ->. auto.
  - apply Hset. intros ->. auto.
  - apply Hset. intros ->. apply Hauto, Hs.
  - apply Hset. intros ->. apply (Hcategory s category _ eq_refl Hs).
  - apply Hset. intros ->. apply Hshow, Hs.
  - destruct s; simpl; apply Hauto, Hs.
  - destruct s; exact Hs.
  - unfold handleKeyboard.
    destruct (code =? "ArrowLeft")%string; [apply Hset; intros ->; auto|].
    destruct (code =? "ArrowRight")%string; [apply Hset; intros ->; auto|].
    destruct (code =? "Space")%string; [|exact Hs].
    apply Hset. intros ->. apply Hauto, Hs.
  - destruct s; simpl; apply Hframe, Hs.
Qed.

Lemma showPlanet_viewerSound (s : Side) (viewer : Viewer) (index : Z) :
  viewerSound s viewer -> viewerSound s (showPlanet viewer index).
Proof.
  intros Hv.
  destruct (Z.ltb_spec index 0) as [Hneg|Hnn].
  { rewrite showPlanet_out_of_range by lia. exact Hv. }
  destruct (Z.geb_spec index (array_length (availablePlanets viewer)))
    as [Hge|Hlt].
  { rewrite showPlanet_out_of_range by lia. exact Hv. }
  destruct (@showPlanet_in_range viewer index ltac:(lia))
    as (Hi & Hp & Hm & _).
  destruct (@array_get_in_range _ (availablePlanets viewer) index
              ltac:(lia)) as [planet Hplanet].
  unfold viewerSound, displayConsistent.
  rewrite showPlanet_available, Hi, Hp, Hm, Hplanet.
  split.
  - intros _ _. split; [lia|]. split; reflexivity.
  - discriminate.
Qed.

Lemma changePlanetCategory_viewerSound (s : Side) (pg : Page)
    (viewer : Viewer) (category : string) :
  viewerSound s (changePlanetCategory pg viewer category).
Proof.
  unfold changePlanetCategory.
  set (l := getPlanetsForCategory pg category).
  destruct (Z.gtb_spec (array_length l) 0) as [Hpos|Hzero].
  - destruct (@showPlanet_in_range (set_index (set_available viewer l) 0) 0)
      as (Hi & Hp & Hm & _); [simpl; lia|].
    destruct (@array_get_in_range _ l 0 ltac:(lia)) as [planet Hplanet].
    unfold viewerSound, displayConsistent.
    rewrite showPlanet_available, Hi, Hp, Hm. simpl. rewrite Hplanet.
    split.
    + intros _ _. split; [lia|]. split; reflexivity.
    + discriminate.
  - assert (Hl : l = []).
    { apply array_length_nil_iff. pose proof (array_length_nonneg l). lia. }
    unfold viewerSound. simpl. split.
    + intros Hne. contradiction.
    + intros _. left. reflexivity.
Qed.

Lemma animateViewer_viewerSound (s : Side) (viewer : Viewer) :
  viewerSound s viewer -> viewerSound s (animateViewer viewer).
Proof.
  intros Hv. unfold animateViewer.
  destruct (planetMesh viewer) as [mesh|] eqn:Em; [|exact Hv].
  destruct (currentPlanet viewer) as [planet|] eqn:Ep; [|exact Hv].
  destruct Hv as [Hshown Hblank].
  unfold viewerSound, displayConsistent in *. simpl.
  rewrite Ep in *. rewrite Em in Hshown. simpl in Hshown.
  split; [exact Hshown|discriminate].
Qed.

Lemma handle_viewerSound (pg : Page) (e : Event) (s : Side) :
  viewerSound s (viewerOf pg s) -> viewerSound s (viewerOf (handle pg e) s).
Proof.
  apply handle_viewer_invariant.
  - intros v i. apply showPlanet_viewerSound.
  - intros v b Hv. exact Hv.
  - intros s' category v _ _. apply changePlanetCategory_viewerSound.
  - intros v. apply animateViewer_viewerSound.
Qed.

(** *** The catalogs and the category lists *)

Lemma showsCategory_sameCatalogs (pg pg' : Page) (viewer : Viewer) :
  sameCatalogs pg pg' -> showsCategory pg viewer -> showsCategory pg' viewer.
Proof.
  intros Hsame [category Hc]. exists category.
  rewrite (getPlanetsForCategory_sameCatalogs category Hsame). exact Hc.
Qed.

Lemma handle_showsCategory (pg : Page) (e : Event) (s : Side) :
  showsCategory pg (viewerOf pg s) ->
  showsCategory pg (viewerOf (handle pg e) s).
Proof.
  apply handle_viewer_invariant.
  - intros v i [category Hc]. exists category.
    rewrite showPlanet_available. exact Hc.
  - intros v b Hv. exact Hv.
  - intros s' category v _ _. exists category. apply category_list.
  - intros v [category Hc]. exists category.
    rewrite animateViewer_available. exact Hc.
Qed.

Lemma handle_catalogSound (pg : Page) (e : Event) :
  catalogSound pg -> catalogSound (handle pg e).
Proof.
  intros (Hp & Hl & Hr).
  pose proof (handle_sameCatalogs pg e) as Hsame.
  pose proof Hsame as (_ & He & Hp').
  split; [congruence|]. split.
  - apply (showsCategory_sameCatalogs Hsame).
    apply (@handle_showsCategory pg e LeftSide Hl).
  - apply (showsCategory_sameCatalogs Hsame).
    apply (@handle_showsCategory pg e RightSide Hr).
Qed.

Lemma run_catalogSound (events : list Event) (pg : Page) :
  catalogSound pg -> catalogSound (run pg events).
Proof.
  revert pg. unfold run.
  induction events as [|e events IH]; intros pg Hpg; simpl.
  - assumption.
  - apply IH, handle_catalogSound, Hpg.
Qed.

Lemma init_catalogSound (solarResponse exoResponse : option (list Planet)) :
  catalogSound (init solarResponse exoResponse).
Proof.
  unfold init. split; [|split].
  - destruct solarResponse, exoResponse; reflexivity.
  - exists "earth"%string. reflexivity.
  - exists "jupiter"%string. reflexivity.
Qed.

Lemma initTimeout_sameCatalogs (pg : Page) :
  sameCatalogs pg (initTimeout pg).
Proof.
  unfold initTimeout.
  destruct (changePlanetCategory_throws pg "earth"); repeat split.
Qed.

Lemma initTimeout_catalogSound (pg : Page) :
  catalogSound pg -> catalogSound (initTimeout pg).
Proof.
  intros (Hp & Hl & Hr).
  pose proof (initTimeout_sameCatalogs pg) as Hsame.
  pose proof Hsame as (_ & He & Hp').
  split; [congruence|].
  assert (Hleft : showsCategory pg
            (changePlanetCategory pg (leftViewer pg) "earth"))
    by (exists "earth"%string; apply category_list).
  unfold initTimeout in *.
  destruct (changePlanetCategory_throws pg "earth").
  - split; apply (showsCategory_sameCatalogs Hsame); assumption.
  - split; apply (showsCategory_sameCatalogs Hsame); [exact Hleft|].
    exists "jupiter"%string. simpl.
    destruct (@category_list
                (set_left pg (changePlanetCategory pg (leftViewer pg) "earth"))
                (rightViewer pg) "jupiter") as [-> _].
    reflexivity.
Qed.

Lemma reachable_catalogSound
    (solarResponse exoResponse : option (list Planet))
    (events : list Event) :
  catalogSound (run (ready solarResponse exoResponse) events).
Proof.
  apply run_catalogSound, initTimeout_catalogSound, init_catalogSound.
Qed.

(** X9.  Away from the last candidate, [nextPlanet] moves to the next index
    and displays that candidate, and [previousPlanet] after it comes back to
    the index and candidate it started from, leaving list and auto-rotate
    as they were. *)
Theorem next_then_previous_returns (viewer : Viewer) :
  0 <= currentPlanetIndex viewer
       < array_length (availablePlanets viewer) - 1 ->
  currentPlanetIndex (nextPlanet viewer) = currentPlanetIndex viewer + 1 /\
  currentPlanet (nextPlanet viewer)
  = array_get (availablePlanets viewer) (currentPlanetIndex viewer + 1) /\
  currentPlanetIndex (previousPlanet (nextPlanet viewer))
  = currentPlanetIndex viewer /\
  currentPlanet (previousPlanet (nextPlanet viewer))
  = array_get (availablePlanets viewer) (currentPlanetIndex viewer) /\
  availablePlanets (previousPlanet (nextPlanet viewer))
  = availablePlanets viewer /\
  autoRotate (previousPlanet (nextPlanet viewer)) = autoRotate viewer.
Proof.
  intros Hrange.
  assert (Hnext : nextPlanet viewer
                  = showPlanet viewer (currentPlanetIndex viewer + 1)).
  { unfold nextPlanet.
    destruct (Z.ltb_spec (currentPlanetIndex viewer)
                (array_length (availablePlanets viewer) - 1));
      [reflexivity|lia]. }
  destruct (@showPlanet_in_range viewer (currentPlanetIndex viewer + 1)
              ltac:(lia)) as (Hi & Hp & _ & Ha).
  rewrite <- Hnext in Hi, Hp, Ha.
  assert (Hl : availablePlanets (nextPlanet viewer)
               = availablePlanets viewer)
    by (rewrite Hnext; apply showPlanet_available).
  assert (Hprev : previousPlanet (nextPlanet viewer)
                  = showPlanet (nextPlanet viewer)
                      (currentPlanetIndex viewer)).
  { unfold previousPlanet. rewrite Hi.
    destruct (Z.gtb_spec (currentPlanetIndex viewer + 1) 0); [|lia].
    f_equal. lia. }
  destruct (@showPlanet_in_range (nextPlanet viewer)
              (currentPlanetIndex viewer)
              ltac:(rewrite Hl; lia)) as (Hi' & Hp' & _ & Ha').
  rewrite <- Hprev in Hi', Hp', Ha'. rewrite Hl in Hp'.
  repeat split; try assumption.
  - rewrite Hprev, showPlanet_available. exact Hl.
  - congruence.
Qed.

Lemma next_then_previous_returns_witness :
  let viewer :=
    changePlanetCategory samplePage (leftViewer samplePage) "exoplanets" in
  currentPlanet (nextPlanet viewer) = Some grazer /\
  currentPlanet (previousPlanet (nextPlanet viewer)) = Some kepler22b.
Proof.
  set (viewer :=
         changePlanetCategory samplePage (leftViewer samplePage)
           "exoplanets").
  destruct (@next_then_previous_returns viewer)
    as (_ & Hn & _ & Hp & _).
  - vm_compute. split; [discriminate|reflexivity].
  - split; [exact Hn|exact Hp].
Defined.

Lemma index_differs (viewer viewer' : Viewer) :
  currentPlanetIndex viewer' <> currentPlanetIndex viewer ->
  viewer' <> viewer.
Proof. intros H Heq. apply H. rewrite Heq. reflexivity. Qed.

Lemma showPlanet_indexSound (viewer : Viewer) (index : Z) :
  0 <= index < array_length (availablePlanets viewer) ->
  indexSound (showPlanet viewer index).
Proof.
  intros Hrange.
  destruct (showPlanet_in_range viewer Hrange) as (Hi & _).
  unfold indexSound, indexInRange.
  rewrite showPlanet_available, Hi.
  split; [lia|]. split; [|intros _; lia].
  intros Hempty. rewrite Hempty in Hrange.
  change (array_length (@nil Planet)) with 0 in Hrange. lia.
Qed.

Lemma changePlanetCategory_indexSound (pg : Page) (viewer : Viewer)
    (category : string) :
  indexSound (changePlanetCategory pg viewer category).
Proof.
  destruct (@category_list pg viewer category) as [Hl Hi].
  unfold indexSound, indexInRange. rewrite Hl, Hi.
  split; [lia|]. split; [reflexivity|].
  intros Hne.
  pose proof (array_length_nonneg (getPlanetsForCategory pg category)).
  destruct (Z.eq_dec (array_length (getPlanetsForCategory pg category)) 0)
    as [Hz|Hz]; [|lia].
  apply array_length_nil_iff in Hz. contradiction.
Qed.

(** On a viewer whose index is sound, what [updateNavigation] writes agrees
    with navigation. *)
Lemma buttons_agree (viewer : Viewer) :
  indexSound viewer ->
  let buttons := updateNavigation viewer in
  1 <= counter buttons /\
  (prevDisabled buttons = true <-> previousPlanet viewer = viewer) /\
  (availablePlanets viewer <> [] ->
   counter buttons <= total buttons /\
   (nextDisabled buttons = true <-> nextPlanet viewer = viewer)) /\
  (availablePlanets viewer = [] ->
   total buttons = 0 /\ counter buttons = 1 /\
   nextDisabled buttons = false /\ nextPlanet viewer = viewer).
Proof.
  intros (H0 & Hnil & Hrange) buttons.
  unfold indexInRange in Hrange.
  unfold buttons, updateNavigation. simpl.
  split; [lia|]. split; [|split].
  - split.
    + intros H. apply Z.eqb_eq in H. apply previousPlanet_at_first, H.
    + intros Hsame. apply Z.eqb_eq.
      destruct (Z.eq_dec (currentPlanetIndex viewer) 0) as [|Hne];
        [assumption|]. exfalso.
      assert (Hlist : availablePlanets viewer <> [])
        by (intros He; apply Hnil in He; contradiction).
      apply Hrange in Hlist.
      revert Hsame. apply index_differs.
      unfold previousPlanet.
      destruct (Z.gtb_spec (currentPlanetIndex viewer) 0); [|lia].
      destruct (@showPlanet_in_range viewer (currentPlanetIndex viewer - 1)
                  ltac:(lia)) as [-> _]. lia.
  - intros Hlist. apply Hrange in Hlist. split; [lia|]. split.
    + intros H. apply Z.eqb_eq in H. apply nextPlanet_at_last, H.
    + intros Hsame. apply Z.eqb_eq.
      destruct (Z.eq_dec (currentPlanetIndex viewer)
                  (array_length (availablePlanets viewer) - 1))
        as [|Hne]; [assumption|]. exfalso.
      revert Hsame. apply index_differs.
      unfold nextPlanet.
      destruct (Z.ltb_spec (currentPlanetIndex viewer)
                  (array_length (availablePlanets viewer) - 1)); [|lia].
      destruct (@showPlanet_in_range viewer (currentPlanetIndex viewer + 1)
                  ltac:(lia)) as [-> _]. lia.
  - intros Hempty. rewrite (Hnil Hempty), Hempty.
    repeat split.
    unfold nextPlanet. rewrite (Hnil Hempty), Hempty. reflexivity.
Qed.

(** X10.  [updateNavigation(viewer)] is called at the end of [showPlanet],
    once the planet at an index of the candidate list is displayed, and at
    the end of [changePlanetCategory] (neither call is reached when
    [updatePlanetInfo] throws).  What it writes at these calls agrees with
    navigation: the counter is the index plus one, the previous button is
    disabled exactly when [previousPlanet] changes nothing, and with
    candidates the next button is disabled exactly when [nextPlanet] changes
    nothing.  After a change to a category without candidates the page
    shows 1 of 0 and the next button is enabled though it does nothing. *)
Theorem navigation_buttons_match_navigation :
  (forall (viewer : Viewer) (index : Z),
     0 <= index < array_length (availablePlanets viewer) ->
     let shown := showPlanet viewer index in
     let buttons := updateNavigation shown in
     counter buttons = index + 1 /\
     counter buttons <= total buttons /\
     (prevDisabled buttons = true <-> previousPlanet shown = shown) /\
     (nextDisabled buttons = true <-> nextPlanet shown = shown)) /\
  (forall (pg : Page) (viewer : Viewer) (category : string),
     let changed := changePlanetCategory pg viewer category in
     let buttons := updateNavigation changed in
     counter buttons = 1 /\
     prevDisabled buttons = true /\
     previousPlanet changed = changed /\
     (getPlanetsForCategory pg category <> [] ->
      counter buttons <= total buttons /\
      (nextDisabled buttons = true <-> nextPlanet changed = changed)) /\
     (getPlanetsForCategory pg category = [] ->
      total buttons = 0 /\
      nextDisabled buttons = false /\
      nextPlanet changed = changed)).
Proof.
  split.
  - intros viewer index Hrange shown buttons.
    destruct (buttons_agree (showPlanet_indexSound viewer Hrange))
      as (_ & Hprev & Hnext & _).
    fold shown in Hprev, Hnext. fold buttons in Hprev, Hnext.
    destruct (showPlanet_in_range viewer Hrange) as (Hi & _).
    fold shown in Hi.
    assert (Hne : availablePlanets shown <> []).
    { unfold shown. rewrite showPlanet_available. intros Hempty.
      rewrite Hempty in Hrange.
      change (array_length (@nil Planet)) with 0 in Hrange. lia. }
    destruct (Hnext Hne) as [Hle Hnext'].
    split; [unfold buttons; simpl; rewrite Hi; reflexivity|].
    split; [exact Hle|]. split; assumption.
  - intros pg viewer category changed buttons.
    destruct (buttons_agree
                (changePlanetCategory_indexSound pg viewer category))
      as (_ & Hprev & Hnext & Hnone).
    fold changed in Hprev, Hnext, Hnone.
    fold buttons in Hprev, Hnext, Hnone.
    destruct (@category_list pg viewer category) as [Hl Hi].
    fold changed in Hl, Hi.
    assert (Hcounter : counter buttons = 1)
      by (unfold buttons; simpl; rewrite Hi; reflexivity).
    assert (Hdisabled : prevDisabled buttons = true)
      by (unfold buttons; simpl; rewrite Hi; reflexivity).
    split; [exact Hcounter|]. split; [exact Hdisabled|].
    split; [apply Hprev, Hdisabled|]. split.
    + intros Hne. apply Hnext. rewrite Hl. exact Hne.
    + intros Hempty. rewrite <- Hl in Hempty.
      destruct (Hnone Hempty) as (Ht & _ & Hn & Hsame).
      repeat split; assumption.
Qed.

(** The theorem on the last of three exoplanets of the sample page. *)
Lemma navigation_buttons_match_navigation_witness :
  let viewer :=
    changePlanetCategory samplePage (leftViewer samplePage) "exoplanets" in
  let buttons := updateNavigation (showPlanet viewer 2) in
  counter buttons = 3 /\ nextDisabled buttons = true /\
  nextPlanet (showPlanet viewer 2) = showPlanet viewer 2.
Proof.
  set (viewer :=
         changePlanetCategory samplePage (leftViewer samplePage)
           "exoplanets").
  destruct (proj1 navigation_buttons_match_navigation viewer 2)
    as (Hcounter & _ & _ & Hnext).
  - vm_compute. split; [discriminate|reflexivity].
  - split; [exact Hcounter|]. split; [reflexivity|].
    apply Hnext. reflexivity.
Defined.

(** X11.  [toggleAutoRotate] is its own inverse and touches neither the
    selection nor the candidate list; and a single viewer's toggle after
    [syncRotation] leaves the two viewers with different flags: the
    synchronisation is not kept. *)
Theorem auto_rotate_toggle_undoes_sync :
  (forall viewer : Viewer,
     toggleAutoRotate (toggleAutoRotate viewer) = viewer /\
     currentPlanetIndex (toggleAutoRotate viewer)
     = currentPlanetIndex viewer /\
     currentPlanet (toggleAutoRotate viewer) = currentPlanet viewer /\
     availablePlanets (toggleAutoRotate viewer)
     = availablePlanets viewer) /\
  (forall (pg : Page) (s : Side),
     let pg' := handle (syncRotation pg) (ClickAutoRotate s) in
     autoRotate (leftViewer pg') <> autoRotate (rightViewer pg')).
Proof.
  split.
  - intros viewer. split; [|repeat split].
    destruct viewer as [sd i p m a l]. unfold toggleAutoRotate.
    simpl. rewrite negb_involutive. reflexivity.
  - intros pg s. destruct s; simpl;
      destruct (autoRotate (leftViewer pg)); simpl; discriminate.
Qed.

(** X12.  After a click on one viewer, key presses act on that viewer only:
    the other viewer is unchanged and the focus stays; the arrow keys and
    the space bar do what the next, previous and auto-rotate buttons do; and
    any other key changes nothing. *)
Theorem keyboard_goes_to_focused_viewer (pg : Page) (code : string)
    (s other : Side) :
  other <> s ->
  let focused := handle pg (ClickViewer s) in
  lastFocusedViewer (handle focused (KeyDown code)) = s /\
  viewerOf (handle focused (KeyDown code)) other = viewerOf pg other /\
  viewerOf (handle focused (KeyDown "ArrowRight")) s
  = nextPlanet (viewerOf pg s) /\
  viewerOf (handle focused (KeyDown "ArrowLeft")) s
  = previousPlanet (viewerOf pg s) /\
  viewerOf (handle focused (KeyDown "Space")) s
  = toggleAutoRotate (viewerOf pg s) /\
  (code <> "ArrowLeft"%string -> code <> "ArrowRight"%string ->
   code <> "Space"%string -> handle focused (KeyDown code) = focused).
Proof.
  intros Hother focused.
  assert (Hkey : forall v,
            lastFocusedViewer (set_viewer focused s v) = s /\
            viewerOf (set_viewer focused s v) other = viewerOf pg other).
  { intros v. destruct s, other; try contradiction; split; reflexivity. }
  split; [|split; [|split; [|split; [|split]]]].
  - simpl. unfold handleKeyboard. simpl.
    destruct (code =? "ArrowLeft")%string; [apply Hkey|].
    destruct (code =? "ArrowRight")%string; [apply Hkey|].
    destruct (code =? "Space")%string; [apply Hkey|reflexivity].
  - simpl. unfold handleKeyboard. simpl.
    destruct (code =? "ArrowLeft")%string; [apply Hkey|].
    destruct (code =? "ArrowRight")%string; [apply Hkey|].
    destruct (code =? "Space")%string; [apply Hkey|].
    destruct other; reflexivity.
  - destruct s; reflexivity.
  - destruct s; reflexivity.
  - destruct s; reflexivity.
  - intros H1 H2 H3. simpl. unfold handleKeyboard.
    apply String.eqb_neq in H1, H2, H3. rewrite H1, H2, H3. reflexivity.
Qed.

Lemma keyboard_goes_to_focused_viewer_witness :
  let focused := handle samplePage (ClickViewer RightSide) in
  viewerOf (handle focused (KeyDown "Space")) LeftSide
  = viewerOf samplePage LeftSide.
Proof.
  refine (proj1 (proj2 (@keyboard_goes_to_focused_viewer
                          samplePage "Space" RightSide LeftSide _))).
  discriminate.
Defined.

(** X13.  No run of events changes the loaded catalogs; the global [planets]
    stays the exoplanet catalog; and each viewer's candidate list is always
    the list of one of the categories. *)
Theorem events_never_change_the_catalogs
    (solarResponse exoResponse : option (list Planet))
    (events : list Event) (s : Side) :
  let start := ready solarResponse exoResponse in
  let pg := run start events in
  solarSystemPlanets pg = solarSystemPlanets start /\
  exoplanets pg = exoplanets start /\
  planets pg = exoplanets pg /\
  exists category,
    availablePlanets (viewerOf pg s) = getPlanetsForCategory start category.
Proof.
  intros start pg.
  pose proof (run_sameCatalogs events start) as Hsame.
  pose proof (reachable_catalogSound solarResponse exoResponse events)
    as (Hplanets & Hl & Hr).
  fold start in Hplanets, Hl, Hr. fold pg in Hsame, Hplanets, Hl, Hr.
  destruct Hsame as (Hs & He & Hp).
  split; [exact Hs|]. split; [exact He|]. split; [exact Hplanets|].
  assert (Hc : showsCategory pg (viewerOf pg s))
    by (destruct s; assumption).
  destruct Hc as [category Hc].
  exists category. rewrite Hc.
  apply getPlanetsForCategory_sameCatalogs. repeat split; assumption.
Qed.

(** X14.  In the exoplanets category the search dropdown is right: after a
    viewer switches to that category, choosing the option of a catalog
    position displays the catalog's record at that position. *)
Theorem search_in_exoplanets_category_selects_the_choice
    (solarResponse exoResponse : option (list Planet))
    (events : list Event) (s : Side) (selectedIndex : Z) (planet : Planet) :
  let pg := run (ready solarResponse exoResponse) events in
  let pg' := handle pg (ChangeCategory s "exoplanets") in
  array_get (planets pg') selectedIndex = Some planet ->
  currentPlanet (viewerOf (handle pg' (SearchChange s selectedIndex)) s)
  = Some planet /\
  currentPlanetIndex (viewerOf (handle pg' (SearchChange s selectedIndex)) s)
  = selectedIndex.
Proof.
  intros pg pg' Hchosen.
  pose proof (reachable_catalogSound solarResponse exoResponse events)
    as (Hplanets & _). fold pg in Hplanets.
  assert (Hview : forall v, viewerOf (set_viewer pg' s v) s = v)
    by (intros v; destruct s; reflexivity).
  assert (Hlist : availablePlanets (viewerOf pg' s) = planets pg').
  { unfold pg'. simpl.
    assert (Hv : forall v, viewerOf (set_viewer pg s v) s = v)
      by (intros v; destruct s; reflexivity).
    rewrite Hv.
    destruct (@category_list pg (viewerOf pg s) "exoplanets") as [-> _].
    assert (Hp' : planets (set_viewer pg s
                     (changePlanetCategory pg (viewerOf pg s) "exoplanets"))
                  = planets pg) by (destruct s; reflexivity).
    rewrite Hp', Hplanets. reflexivity. }
  simpl handle. rewrite Hview. unfold searchChange.
  rewrite <- Hlist in Hchosen.
  pose proof (array_get_some _ _ Hchosen) as Hrange.
  destruct (showPlanet_in_range (viewerOf pg' s) Hrange) as (Hi & Hp & _).
  rewrite Hp, Hi. split; [exact Hchosen|reflexivity].
Qed.

Lemma search_in_exoplanets_category_selects_the_choice_witness :
  let pg := handle samplePage (ChangeCategory LeftSide "exoplanets") in
  currentPlanet (viewerOf (handle pg (SearchChange LeftSide 2)) LeftSide)
  = Some farOut.
Proof.
  refine (proj1 (@search_in_exoplanets_category_selects_the_choice
                   (Some [earth; jupiter])
                   (Some [kepler22b; grazer; farOut])
                   [] LeftSide 2 farOut _)).
  reflexivity.
Defined.

Lemma animateViewer_step (viewer : Viewer) (mesh : Mesh) (planet : Planet) :
  planetMesh viewer = Some mesh -> currentPlanet viewer = Some planet ->
  animateViewer viewer
  = set_mesh viewer
      (Some {| userData := userData mesh;
               rotation_y :=
                 (rotation_y mesh
                  + Derivation.finalRotationSpeed planet (autoRotate viewer))%R
            |}).
Proof.
  intros Hm Hp. unfold animateViewer. rewrite Hm, Hp. reflexivity.
Qed.

(** X15.  [n] frames of [animate] turn a displayed planet by [n] times the
    per-frame angle, and change nothing else of the viewer. *)
Theorem rotation_accumulates_over_frames (n : nat) (viewer : Viewer)
    (mesh : Mesh) (planet : Planet) :
  planetMesh viewer = Some mesh -> currentPlanet viewer = Some planet ->
  let viewer' := animateFrames n viewer in
  option_map rotation_y (planetMesh viewer')
  = Some (rotation_y mesh
          + INR n * Derivation.finalRotationSpeed planet (autoRotate viewer))%R
  /\ option_map userData (planetMesh viewer') = Some (userData mesh)
  /\ currentPlanetIndex viewer' = currentPlanetIndex viewer
  /\ currentPlanet viewer' = currentPlanet viewer
  /\ availablePlanets viewer' = availablePlanets viewer
  /\ autoRotate viewer' = autoRotate viewer.
Proof.
  revert viewer mesh.
  induction n as [|n IH]; intros viewer mesh Hm Hp.
  - simpl. rewrite Hm. simpl. rewrite Rmult_0_l, Rplus_0_r.
    repeat split.
  - cbv zeta. rewrite S_INR.
    change (animateFrames (S n) viewer)
      with (animateFrames n (animateViewer viewer)).
    rewrite (animateViewer_step viewer Hm Hp).
    set (mesh' := {| userData := userData mesh;
                     rotation_y :=
                       (rotation_y mesh
                        + Derivation.finalRotationSpeed planet
                            (autoRotate viewer))%R |}).
    destruct (IH (set_mesh viewer (Some mesh')) mesh' eq_refl Hp)
      as (Hr & Hu & Hi & Hc & Hl & Ha).
    rewrite Hr, Hu, Hi, Hc, Hl, Ha. simpl.
    repeat split. f_equal. ring.
Qed.

Lemma rotation_accumulates_over_frames_witness :
  let viewer := leftViewer samplePage in
  option_map rotation_y (planetMesh (animateFrames 3 viewer))
  = Some (0 + INR 3 * Derivation.finalRotationSpeed earth true)%R.
Proof.
  refine (proj1 (@rotation_accumulates_over_frames 3 (leftViewer samplePage)
                   (createPlanet earth) earth eq_refl eq_refl)).
Defined.

(** X16.  A planet of period [p] days turns once in [1440 * p] frames with
    auto-rotate off and in [14.4 * p] frames with auto-rotate on. *)
Theorem frames_per_revolution (planet : Planet) (p : R) :
  orbit_period planet = Some p -> (0 < p)%R ->
  (1440 * p * Derivation.finalRotationSpeed planet false = 2 * PI)%R /\
  (14.4 * p * Derivation.finalRotationSpeed planet true = 2 * PI)%R.
Proof.
  intros Hp Hpos. unfold Derivation.finalRotationSpeed.
  rewrite !(@rotationSpeed_formula planet p _ Hp ltac:(lra)).
  cbv [Derivation.autoRotateMultiplier].
  replace 14.4%R with (144 / 10)%R by lra.
  split; field; lra.
Qed.

Lemma frames_per_revolution_witness :
  (14.4 * 365.25 * Derivation.finalRotationSpeed earth true = 2 * PI)%R.
Proof.
  refine (proj2 (@frames_per_revolution earth 365.25 eq_refl _)). lra.
Defined.

End CategoryViewFacts.

(** ** The live category comparison page *)

Section LiveFacts.

Import CategoryCompare CategoryView CategoryLive.
Open Scope Z_scope.

Lemma handle_available (pg : Page) (e : Event) (s : Side) :
  (forall s' category, e <> ChangeCategory s' category) ->
  availablePlanets (viewerOf (handle pg e) s)
  = availablePlanets (viewerOf pg s).
Proof.
  intros Hother.
  apply (@handle_viewer_invariant
           (fun v => availablePlanets v = availablePlanets (viewerOf pg s))).
  - intros v i Hv. rewrite showPlanet_available. exact Hv.
  - intros v b Hv. exact Hv.
  - intros s' category v He. elim (Hother s' category He).
  - intros v Hv. rewrite animateViewer_available. exact Hv.
  - reflexivity.
Qed.

Lemma boot_liveSound (markup : Dom)
    (solarResponse exoResponse : option (list Planet)) :
  liveSound markup (boot markup solarResponse exoResponse).
Proof.
  split; [apply init_catalogSound|].
  intros s. destruct solarResponse, exoResponse; split.
  all: try (intros Hdisplayed; right; split; [exact Hdisplayed|];
            destruct s; reflexivity).
  all: split;
    [intros _ Hshown; destruct s; elim Hshown; reflexivity
    |intros _; destruct s; [left|right; split]; reflexivity].
Qed.

Lemma deliver_liveSound (markup : Dom) (lp : LivePage) (e : Event) :
  liveSound markup lp -> liveSound markup (deliver lp e).
Proof.
  intros [Hcat Hv].
  pose proof (handle_sameCatalogs (page lp) e) as Hsame.
  split; [apply handle_catalogSound, Hcat|].
  intros s. destruct (Hv s) as [Hs Hsearch].
  split; [apply handle_viewerSound, Hs|].
  unfold searchSound in *.
  change (page (deliver lp e)) with (handle (page lp) e).
  rewrite (getPlanetsForCategory_sameCatalogs _ Hsame).
  destruct Hsame as (_ & _ & ->).
  destruct e as [s'|s'|s'|s' category|s' selectedIndex| |s'|code|];
    try (rewrite handle_available by discriminate; exact Hsearch).
  destruct Hcat as (Hplanets & _).
  assert (Hexo : displayFor category = true ->
                 getPlanetsForCategory (page lp) category
                 = planets (page lp)).
  { unfold displayFor. intros Heq. apply String.eqb_eq in Heq.
    rewrite Heq, Hplanets. reflexivity. }
  destruct s, s'; simpl; try exact Hsearch.
  - intros Hdisplayed. left.
    destruct (@category_list (page lp) (leftViewer (page lp)) category)
      as [-> _].
    apply Hexo, Hdisplayed.
  - intros Hdisplayed. left.
    destruct (@category_list (page lp) (rightViewer (page lp)) category)
      as [-> _].
    apply Hexo, Hdisplayed.
Qed.

Lemma timeout_liveSound (markup : Dom) (lp : LivePage) :
  liveSound markup lp -> liveSound markup (timeout lp).
Proof.
  intros [Hcat Hv].
  pose proof (initTimeout_sameCatalogs (page lp)) as Hsame.
  split; [apply initTimeout_catalogSound, Hcat|].
  intros s. destruct (Hv s) as [Hs Hsearch].
  unfold searchSound in *.
  change (page (timeout lp)) with (initTimeout (page lp)).
  rewrite (getPlanetsForCategory_sameCatalogs _ Hsame).
  destruct Hsame as (_ & _ & ->).
  unfold timeout, initTimeout. simpl dom.
  destruct (changePlanetCategory_throws (page lp) "earth");
    destruct s; simpl.
  - split; [apply changePlanetCategory_viewerSound|discriminate].
  - split; [exact Hs|exact Hsearch].
  - split; [apply changePlanetCategory_viewerSound|discriminate].
  - split; [apply changePlanetCategory_viewerSound|discriminate].
Qed.

Lemma step_liveSound (markup : Dom) (lp : LivePage) (st : Step) :
  liveSound markup lp -> liveSound markup (step lp st).
Proof.
  intros Hlp. destruct st as [e|]; simpl.
  - destruct (deliverable lp e); [apply deliver_liveSound|]; assumption.
  - destruct (timerPending lp); [apply timeout_liveSound|]; assumption.
Qed.

Lemma live_liveSound (markup : Dom)
    (solarResponse exoResponse : option (list Planet))
    (steps : list Step) :
  liveSound markup (live markup solarResponse exoResponse steps).
Proof.
  unfold live.
  generalize (boot_liveSound markup solarResponse exoResponse).
  generalize (boot markup solarResponse exoResponse).
  induction steps as [|st steps IH]; intros lp Hlp; simpl.
  - assumption.
  - apply IH, step_liveSound, Hlp.
Qed.

(** Claim C4, as amended.  On the live page, whatever the markup, the
    loaded data and the steps taken since [init] returned: a viewer with
    candidates that has displayed a planet has its index inside the
    candidate list; a viewer with candidates is out of range only if it is
    the right viewer, has displayed nothing yet, and sits at the index 1 it
    was declared with on a one-element list; and navigation never wraps:
    [previousPlanet] at index 0 and [nextPlanet] at the last index return
    the viewer unchanged. *)
Theorem index_in_range_once_displayed (markup : Dom)
    (solarResponse exoResponse : option (list Planet))
    (steps : list Step) (s : Side) :
  let viewer :=
    viewerOf (page (live markup solarResponse exoResponse steps)) s in
  (availablePlanets viewer <> [] -> currentPlanet viewer <> None ->
   0 <= currentPlanetIndex viewer
        < array_length (availablePlanets viewer)) /\
  (availablePlanets viewer <> [] ->
   0 <= currentPlanetIndex viewer < array_length (availablePlanets viewer)
   \/ (s = RightSide /\ currentPlanet viewer = None /\
       currentPlanetIndex viewer = 1 /\
       array_length (availablePlanets viewer) = 1)) /\
  (currentPlanetIndex viewer = 0 -> previousPlanet viewer = viewer) /\
  (currentPlanetIndex viewer = array_length (availablePlanets viewer) - 1 ->
   nextPlanet viewer = viewer).
Proof.
  intros viewer.
  destruct (live_liveSound markup solarResponse exoResponse steps)
    as [_ Hv].
  destruct (Hv s) as [[Hshown Hblank] _]. fold viewer in Hshown, Hblank.
  split; [|split; [|split]].
  - intros Hne Hdisplayed. apply Hshown; assumption.
  - intros Hne.
    assert (Hlen : 0 < array_length (availablePlanets viewer)).
    { pose proof (array_length_nonneg (availablePlanets viewer)).
      destruct (Z.eq_dec (array_length (availablePlanets viewer)) 0)
        as [Hz|Hz]; [|lia].
      apply array_length_nil_iff in Hz. contradiction. }
    destruct (currentPlanet viewer) as [planet|] eqn:Ep.
    + left. apply Hshown; [assumption|discriminate].
    + destruct (Hblank eq_refl) as [H0|[Hs H1]]; [left; lia|].
      destruct (Z.eq_dec (array_length (availablePlanets viewer)) 1)
        as [Hone|Hmore]; [right; repeat split; assumption|left; lia].
  - apply previousPlanet_at_first.
  - apply nextPlanet_at_last.
Qed.

(** The theorem on the sample data: after the timer the left viewer goes to
    the exoplanets and three steps forward, which stop at the last of the
    three candidates. *)
Lemma index_in_range_once_displayed_witness :
  let viewer :=
    viewerOf
      (page (live displayedMarkup (Some [earth; jupiter])
               (Some [kepler22b; grazer; farOut])
               [Deliver Frame; Timer;
                Deliver (ChangeCategory LeftSide "exoplanets");
                Deliver (ClickNext LeftSide); Deliver (ClickNext LeftSide);
                Deliver (KeyDown "ArrowRight")]))
      LeftSide in
  currentPlanetIndex viewer = 2 /\
  0 <= currentPlanetIndex viewer < array_length (availablePlanets viewer).
Proof.
  split; [reflexivity|].
  refine (proj1
    (@index_in_range_once_displayed displayedMarkup
       (Some [earth; jupiter]) (Some [kepler22b; grazer; farOut])
       [Deliver Frame; Timer;
        Deliver (ChangeCategory LeftSide "exoplanets");
        Deliver (ClickNext LeftSide); Deliver (ClickNext LeftSide);
        Deliver (KeyDown "ArrowRight")]
       LeftSide) _ _); simpl; discriminate.
Defined.

(** Claim C4 as stated fails on the live page.  With one Jupiter record
    loaded, the right viewer has the one-element candidate list [init] gave
    it and the index 1 it was declared with, while the page already handles
    frames, clicks and keys; and when the Earth record has no orbital elements
    the timer's callback ends in the left viewer's [updatePlanetInfo], so
    the right viewer stays that way after the timer too. *)
Lemma index_out_of_range_before_first_display :
  (let lp :=
     live hiddenMarkup (Some [earth; jupiter])
       (Some [kepler22b; grazer; farOut])
       [Deliver Frame; Deliver (ClickViewer RightSide);
        Deliver (KeyDown "ArrowRight")] in
   let viewer := rightViewer (page lp) in
   timerPending lp = true /\
   availablePlanets viewer = [jupiter] /\
   currentPlanetIndex viewer = 1 /\
   ~ (0 <= currentPlanetIndex viewer
           < array_length (availablePlanets viewer))) /\
  (let lp :=
     live hiddenMarkup (Some [bareEarth; jupiter])
       (Some [kepler22b; grazer; farOut])
       [Deliver Frame; Timer; Deliver (ClickViewer RightSide);
        Deliver (KeyDown "ArrowRight")] in
   let viewer := rightViewer (page lp) in
   timerPending lp = false /\
   availablePlanets viewer = [jupiter] /\
   currentPlanetIndex viewer = 1 /\
   ~ (0 <= currentPlanetIndex viewer
           < array_length (availablePlanets viewer))).
Proof.
  split; (split; [reflexivity|]; split; [reflexivity|];
          split; [reflexivity|]); vm_compute; intros [_ H]; discriminate.
Qed.

(** X8.  On the live page, a viewer with candidates that has displayed a
    planet displays the candidate at its selected index, and its mesh was
    built from that record. *)
Theorem displayed_planet_is_selected_candidate (markup : Dom)
    (solarResponse exoResponse : option (list Planet))
    (steps : list Step) (s : Side) :
  let viewer :=
    viewerOf (page (live markup solarResponse exoResponse steps)) s in
  availablePlanets viewer <> [] -> currentPlanet viewer <> None ->
  exists planet,
    currentPlanet viewer = Some planet /\
    array_get (availablePlanets viewer) (currentPlanetIndex viewer)
    = Some planet /\
    option_map userData (planetMesh viewer) = Some planet.
Proof.
  intros viewer Hne Hdisplayed.
  destruct (live_liveSound markup solarResponse exoResponse steps)
    as [_ Hv].
  destruct (Hv s) as [[Hshown _] _]. fold viewer in Hshown.
  destruct (Hshown Hne Hdisplayed) as [_ [Hp Hm]].
  destruct (currentPlanet viewer) as [planet|] eqn:Ep;
    [|elim Hdisplayed; reflexivity].
  exists planet. rewrite Hm, <- Hp. repeat split.
Qed.

Lemma displayed_planet_is_selected_candidate_witness :
  let viewer :=
    viewerOf
      (page (live hiddenMarkup (Some [earth; jupiter])
               (Some [kepler22b; grazer; farOut])
               [Deliver (ClickViewer RightSide);
                Deliver (KeyDown "ArrowLeft"); Deliver Frame; Timer;
                Deliver (ChangeCategory RightSide "exoplanets");
                Deliver (ClickNext RightSide); Deliver Frame]))
      RightSide in
  exists planet,
    currentPlanet viewer = Some planet /\
    array_get (availablePlanets viewer) (currentPlanetIndex viewer)
    = Some planet /\
    option_map userData (planetMesh viewer) = Some planet.
Proof.
  refine (@displayed_planet_is_selected_candidate hiddenMarkup
            (Some [earth; jupiter]) (Some [kepler22b; grazer; farOut])
            [Deliver (ClickViewer RightSide);
             Deliver (KeyDown "ArrowLeft"); Deliver Frame; Timer;
             Deliver (ChangeCategory RightSide "exoplanets");
             Deliver (ClickNext RightSide); Deliver Frame] RightSide _ _);
    simpl; discriminate.
Defined.




End LiveFacts.

(** ** The planet list of the explorer *)

Section SliceFacts.

Context {A : Type}.

Lemma chunks_concat (n : nat) (m : nat) (l : list A) :
  (0 < n)%nat -> (List.length l <= m * n)%nat ->
  List.concat (map (fun k => firstn n (skipn (k * n) l)) (seq 0 m)) = l.
Proof.
  intros Hn. revert l.
  induction m as [|m IH]; intros l Hlen; simpl.
  - destruct l; [reflexivity|simpl in Hlen; lia].
  - rewrite <- seq_shift, map_map.
    transitivity ((firstn n l ++ skipn n l)%list); [|apply firstn_skipn].
    f_equal.
    rewrite <- (IH (skipn n l)).
    + f_equal. apply map_ext. intros k.
      rewrite skipn_skipn. f_equal. f_equal. simpl. lia.
    + rewrite length_skipn. simpl in Hlen. lia.
Qed.

Open Scope Z_scope.

Lemma slice_chunk (l : list A) (k n : Z) :
  0 <= k -> 0 < n ->
  ExplorerList.slice l (k * n) (Z.min (k * n + n) (array_length l))
  = firstn (Z.to_nat n) (skipn (Z.to_nat k * Z.to_nat n) l).
Proof.
  intros Hk Hn. unfold ExplorerList.slice, array_length.
  replace (Z.to_nat (k * n)) with (Z.to_nat k * Z.to_nat n)%nat by nia.
  set (r := skipn (Z.to_nat k * Z.to_nat n) l).
  assert (Hr : List.length r
               = (List.length l - Z.to_nat k * Z.to_nat n)%nat)
    by apply length_skipn.
  destruct (Z.le_gt_cases (k * n + n) (Z.of_nat (List.length l)))
    as [Hfull|Hpart].
  - rewrite Z.min_l by assumption. f_equal. lia.
  - rewrite Z.min_r by lia.
    assert (Hshort : (List.length r <= Z.to_nat n)%nat) by nia.
    rewrite (firstn_all2 (n := Z.to_nat n)) by assumption.
    apply firstn_all2. nia.
Qed.

End SliceFacts.

Section ExplorerListFacts.

Import Explorer ExplorerList.
Open Scope Z_scope.

Lemma pageAt_chunk (s : State) (k : Z) :
  0 <= k -> 0 < planetsPerPage s ->
  pageAt s k
  = firstn (Z.to_nat (planetsPerPage s))
      (skipn (Z.to_nat k * Z.to_nat (planetsPerPage s)) (filteredPlanets s)).
Proof.
  intros Hk Hn. unfold pageAt, currentPagePlanets. simpl.
  apply slice_chunk; assumption.
Qed.

(** X17.  For a positive page size, the pages of the dropdown, taken in
    order, make up the filtered list exactly; no page holds more than
    [planetsPerPage] planets and none of the [totalPages] pages is empty. *)
Theorem pages_partition_the_list (s : State) :
  0 < planetsPerPage s ->
  let pages := totalPages (updatePaginationInfo s) in
  List.concat (map (fun k => pageAt s (Z.of_nat k)) (seq 0 (Z.to_nat pages)))
  = filteredPlanets s /\
  (forall k, 0 <= k -> array_length (pageAt s k) <= planetsPerPage s) /\
  (forall k, 0 <= k < pages -> pageAt s k <> []).
Proof.
  intros Hn pages. unfold pages. simpl.
  pose proof (Math_ceil_div_spec (array_length (filteredPlanets s)) Hn)
    as [Hlo Hhi].
  set (maxPages := Math_ceil_div (array_length (filteredPlanets s))
                                 (planetsPerPage s)) in *.
  pose proof (array_length_nonneg (filteredPlanets s)) as Hlen.
  unfold array_length in Hlo, Hhi, Hlen.
  split; [|split].
  - transitivity
      (List.concat
         (map (fun k => firstn (Z.to_nat (planetsPerPage s))
                          (skipn (k * Z.to_nat (planetsPerPage s))
                                 (filteredPlanets s)))
              (seq 0 (Z.to_nat maxPages)))).
    + f_equal. apply map_ext. intros k.
      rewrite pageAt_chunk by lia. rewrite Nat2Z.id. reflexivity.
    + apply chunks_concat; nia.
  - intros k Hk. rewrite pageAt_chunk by assumption.
    unfold array_length. rewrite length_firstn. lia.
  - intros k Hk. rewrite pageAt_chunk by lia.
    intros Hnil. apply (f_equal (@List.length Planet)) in Hnil.
    rewrite length_firstn, length_skipn in Hnil. simpl in Hnil. nia.
Qed.

Lemma pages_partition_the_list_witness :
  let s := changePlanetsPerPage (init (Some sampleCatalog) None None) 10 in
  array_length (pageAt s 2) <= 10 /\ pageAt s 2 <> [].
Proof.
  intros s.
  destruct (@pages_partition_the_list s) as (_ & Hle & Hne).
  - reflexivity.
  - split; [apply Hle; lia|apply Hne; vm_compute; split; [discriminate|reflexivity]].
Defined.




(** *** The filtered list and the positions of its records *)

Lemma filter_positions_length {A : Type} (f : A -> bool) (l : list A)
    (off : Z) :
  List.length (filter_positions f l off) = List.length (filter f l).
Proof.
  revert off. induction l as [|x l IH]; intros off; simpl.
  - reflexivity.
  - destruct (f x); simpl; rewrite IH; reflexivity.
Qed.

Lemma filter_positions_nth {A : Type} (f : A -> bool) (l : list A)
    (off i : Z) (x : A) :
  array_get (filter f l) i = Some x ->
  exists k,
    array_get (filter_positions f l off) i = Some (off + k) /\
    array_get l k = Some x.
Proof.
  revert off i. induction l as [|y l IH]; intros off i Hx.
  - apply array_get_some in Hx. unfold array_length in Hx. simpl in Hx. lia.
  - simpl in Hx. simpl filter_positions.
    assert (Htail : forall j,
              array_get (filter f l) j = Some x ->
              exists k, array_get (filter_positions f l (off + 1)) j
                        = Some (off + k)
                        /\ array_get (y :: l) k = Some x).
    { intros j Hj. destruct (IH (off + 1) j Hj) as (k & Hk & Hl).
      pose proof (array_get_some _ _ Hl) as Hrange.
      exists (k + 1). split.
      - rewrite Hk. f_equal. lia.
      - rewrite array_get_cons by lia.
        replace (k + 1 - 1) with k by lia. exact Hl. }
    destruct (f y); [|apply Htail; exact Hx].
    pose proof (array_get_some _ _ Hx) as Hrange.
    destruct (Z.eq_dec i 0) as [->|Hne].
    + simpl in Hx. injection Hx as ->.
      exists 0. rewrite Z.add_0_r. split; reflexivity.
    + rewrite array_get_cons in Hx by lia.
      destruct (Htail (i - 1) Hx) as (k & Hk & Hl).
      exists k. split; [|exact Hl].
      rewrite array_get_cons by lia. exact Hk.
Qed.

Lemma showPlanet_filter_fields (s : State) (index : Z) :
  planets (showPlanet s index) = planets s /\
  filteredPlanets (showPlanet s index) = filteredPlanets s /\
  currentFilter (showPlanet s index) = currentFilter s.
Proof. unfold showPlanet. destruct (_ || _); repeat split. Qed.

Lemma applyFilter_applied (s : State) : filterApplied (applyFilter s).
Proof.
  unfold filterApplied, applyFilter, passesFilter.
  destruct (currentFilter s =? "all")%string eqn:E; simpl; rewrite E; simpl.
  - symmetry. apply forallb_filter_id. apply forallb_forall. reflexivity.
  - reflexivity.
Qed.

Lemma changeTypeFilter_applied (s : State) (value : string) :
  filterApplied (changeTypeFilter s value).
Proof. unfold changeTypeFilter. apply applyFilter_applied. Qed.

Lemma handlePage_applied (s : State) (e : PageEvent) :
  filterApplied s -> filterApplied (handlePage s e).
Proof.
  intros H. destruct e as [| |value|value]; simpl.
  - unfold prevPage. destruct (_ >? _); exact H.
  - unfold nextPage. destruct (_ <? _); exact H.
  - apply changeTypeFilter_applied.
  - exact H.
Qed.

Lemma init_applied (koiData keplerData : option (list Planet))
    (exoplanetData : option (list LegacyPlanet)) :
  filterApplied (init koiData keplerData exoplanetData).
Proof.
  unfold init. set (s := populatePlanetSelect _).
  assert (Hs : filterApplied s).
  { unfold filterApplied, s, populatePlanetSelect. simpl.
    symmetry. apply forallb_filter_id. apply forallb_forall. reflexivity. }
  destruct (_ >? _); [|exact Hs].
  unfold filterApplied.
  destruct (showPlanet_filter_fields s 0) as (-> & -> & ->). exact Hs.
Qed.

Lemma runPage_applied (events : list PageEvent) (s : State) :
  filterApplied s -> filterApplied (runPage s events).
Proof.
  revert s. induction events as [|e events IH]; intros s H; simpl.
  - exact H.
  - apply IH, handlePage_applied, H.
Qed.

(** X19.  On every state reached from [init] by pagination events, choosing
    the option of a position of the filtered list displays the planet at
    that position, also under a type filter; a value that is no position of
    the list changes nothing. *)
Theorem choosing_a_listed_planet_shows_it
    (koiData keplerData : option (list Planet))
    (exoplanetData : option (list LegacyPlanet))
    (events : list PageEvent) (selectedIndex : Z) :
  let s := runPage (init koiData keplerData exoplanetData) events in
  (forall planet,
     array_get (filteredPlanets s) selectedIndex = Some planet ->
     currentPlanet (handlePlanetSelect s selectedIndex) = Some planet /\
     array_get (planets s)
       (currentPlanetIndex (handlePlanetSelect s selectedIndex))
     = Some planet) /\
  (array_get (filteredPlanets s) selectedIndex = None ->
   handlePlanetSelect s selectedIndex = s).
Proof.
  intros s.
  assert (Happlied : filterApplied s)
    by (apply runPage_applied, init_applied).
  unfold filterApplied in Happlied. split.
  - intros planet Hp. rewrite Happlied in Hp.
    destruct (filter_positions_nth _ _ 0 _ Hp) as (k & Hk & Hl).
    unfold handlePlanetSelect. rewrite Hk. simpl.
    pose proof (array_get_some _ _ Hl) as Hrange.
    unfold showPlanet.
    destruct (Z.ltb_spec k 0); [lia|].
    destruct (Z.geb_spec k (array_length (planets s))); [lia|].
    simpl. split; assumption.
  - intros Hnone. unfold handlePlanetSelect.
    assert (Hrefs : array_get
                      (filter_positions (passesFilter (currentFilter s))
                                        (planets s) 0) selectedIndex = None).
    { unfold array_get in *. unfold array_length in *.
      rewrite filter_positions_length, <- Happlied.
      destruct (_ && _) eqn:E; [|reflexivity].
      apply nth_error_None in Hnone. lia. }
    rewrite Hrefs. reflexivity.
Qed.

Lemma choosing_a_listed_planet_shows_it_witness :
  let s :=
    runPage (init (Some [kepler22b; grazer; farOut; kepler62f]) None None)
            [SelectTypeFilter "Super-Earth"] in
  currentPlanet (handlePlanetSelect s 1) = Some kepler62f.
Proof.
  refine (proj1 (proj1 (@choosing_a_listed_planet_shows_it
                          (Some [kepler22b; grazer; farOut; kepler62f])
                          None None [SelectTypeFilter "Super-Earth"] 1)
                   kepler62f _)).
  reflexivity.
Defined.

(** *** The counts of the filter dropdown *)

Lemma countOf_setCount (counts : TypeCounts) (key key' : string) (v : Z) :
  countOf (setCount counts key v) key'
  = if (key =? key')%string then v else countOf counts key'.
Proof.
  induction counts as [|[k n] counts IH]; simpl.
  - reflexivity.
  - destruct (k =? key)%string eqn:E; simpl.
    + apply String.eqb_eq in E. subst k.
      destruct (key =? key')%string; reflexivity.
    + destruct (k =? key')%string eqn:E'.
      * apply String.eqb_eq in E'. subst k.
        rewrite String.eqb_sym, E. reflexivity.
      * exact IH.
Qed.

Lemma countOf_fold (l : list Planet) (counts : TypeCounts) (key : string) :
  countOf
    (fold_left
       (fun c p => setCount c (type p) (countOf c (type p) + 1)) l counts)
    key
  = countOf counts key
    + array_length (filter (fun p => (type p =? key)%string) l).
Proof.
  revert counts. induction l as [|p l IH]; intros counts; simpl.
  - unfold array_length. simpl. lia.
  - rewrite IH, countOf_setCount.
    destruct (type p =? key)%string eqn:E.
    + apply String.eqb_eq in E. rewrite E.
      unfold array_length. simpl List.length. lia.
    + reflexivity.
Qed.

(** X20.  The count that [applyFilter] writes next to a type of the dropdown
    is the length of the list that choosing this type produces, which holds
    exactly the planets of the catalog of that type. *)
Theorem shown_count_is_length_of_filtered_list (s : State) (tag : string) :
  In tag typeOptions ->
  countOf (typeCounts (planets s)) tag
  = array_length (filteredPlanets (changeTypeFilter s tag)) /\
  currentFilter (changeTypeFilter s tag) = tag /\
  (forall planet,
     In planet (filteredPlanets (changeTypeFilter s tag)) <->
     In planet (planets s) /\ type planet = tag).
Proof.
  intros Htag.
  assert (Hnot_all : (tag =? "all")%string = false).
  { simpl in Htag. decompose [or] Htag; subst; try reflexivity.
    contradiction. }
  assert (Hlist : filteredPlanets (changeTypeFilter s tag)
                  = filter (fun p => (type p =? tag)%string) (planets s)).
  { unfold changeTypeFilter, applyFilter. simpl. rewrite Hnot_all.
    reflexivity. }
  split; [|split].
  - unfold typeCounts. rewrite countOf_fold, Hlist. simpl. lia.
  - unfold changeTypeFilter, applyFilter. simpl.
    rewrite Hnot_all. reflexivity.
  - intros planet. rewrite Hlist, filter_In.
    rewrite String.eqb_eq. reflexivity.
Qed.

Lemma shown_count_is_length_of_filtered_list_witness :
  let s := init (Some [kepler22b; grazer; farOut; kepler62f]) None None in
  countOf (typeCounts (planets s)) "Super-Earth" = 2.
Proof.
  intros s.
  destruct (@shown_count_is_length_of_filtered_list s "Super-Earth")
    as (Hcount & _).
  - simpl. tauto.
  - rewrite Hcount. reflexivity.
Defined.

(** X21.  The type filter narrows the dropdown only: it changes neither the
    catalog nor the selection, and [nextPlanet] and [previousPlanet] walk
    the whole catalog exactly as without the filter. *)
Theorem type_filter_does_not_restrict_navigation (s : State)
    (value : string) :
  planets (changeTypeFilter s value) = planets s /\
  currentPlanetIndex (changeTypeFilter s value) = currentPlanetIndex s /\
  currentPlanet (changeTypeFilter s value) = currentPlanet s /\
  nextPlanet (changeTypeFilter s value)
  = changeTypeFilter (nextPlanet s) value /\
  previousPlanet (changeTypeFilter s value)
  = changeTypeFilter (previousPlanet s) value.
Proof.
  assert (Hfields : planets (changeTypeFilter s value) = planets s /\
                    currentPlanetIndex (changeTypeFilter s value)
                    = currentPlanetIndex s /\
                    currentPlanet (changeTypeFilter s value)
                    = currentPlanet s).
  { unfold changeTypeFilter, applyFilter. simpl.
    destruct (value =? "all")%string; repeat split. }
  assert (Hshow : forall index,
            showPlanet (changeTypeFilter s value) index
            = changeTypeFilter (showPlanet s index) value).
  { intros index. unfold showPlanet.
    destruct Hfields as (Hp & _). rewrite Hp.
    destruct ((index <? 0) || (index >=? array_length (planets s)));
      [reflexivity|].
    unfold changeTypeFilter, applyFilter. simpl.
    destruct (value =? "all")%string; reflexivity. }
  destruct Hfields as (Hp & Hi & Hc).
  split; [exact Hp|]. split; [exact Hi|]. split; [exact Hc|]. split.
  - unfold nextPlanet. rewrite Hp, Hi.
    destruct (_ <? _); [apply Hshow|reflexivity].
  - unfold previousPlanet. rewrite Hi.
    destruct (_ >? _); [apply Hshow|reflexivity].
Qed.

End ExplorerListFacts.

(** ** Loading, searching, converting, easing *)

Section LoaderFacts.

Import Explorer.
Open Scope Z_scope.

Lemma decimal_injective (n m : nat) : decimal n = decimal m -> n = m.
Proof.
  unfold decimal. intros H.
  assert (Hnonnil : forall k, Nat.to_uint k <> Decimal.Nil).
  { intros k.
    rewrite <- (DecimalNat.Unsigned.of_to k) at 1.
    rewrite DecimalNat.Unsigned.to_of. apply unorm_nonnil. }
  apply (f_equal NilZero.uint_of_string) in H.
  rewrite !NilZero.usu in H by apply Hnonnil.
  injection H as H.
  apply (f_equal Nat.of_uint) in H.
  rewrite !DecimalNat.Unsigned.of_to in H. exact H.
Qed.

Lemma map_indexed_In {A B : Type} (f : A -> nat -> B) (l : list A)
    (i : nat) (y : B) :
  In y (map_indexed f l i) ->
  exists x k, In x l /\ (i <= k)%nat /\ y = f x k.
Proof.
  revert i. induction l as [|x l IH]; intros i; simpl; [tauto|].
  intros [<-|H].
  - exists x, i. auto.
  - destruct (IH _ H) as (x' & k & Hin & Hk & ->).
    exists x', k. repeat split; auto. lia.
Qed.

Lemma map_indexed_length {A B : Type} (f : A -> nat -> B) (l : list A)
    (i : nat) :
  List.length (map_indexed f l i) = List.length l.
Proof.
  revert i. induction l as [|x l IH]; intros i; simpl; [|rewrite IH];
    reflexivity.
Qed.

Lemma convertLegacy_ids_distinct (l : list LegacyPlanet) (i : nat) :
  NoDup (map id (map_indexed convertLegacy l i)).
Proof.
  revert i. induction l as [|x l IH]; intros i; simpl.
  - constructor.
  - constructor; [|apply IH].
    intros Hin. apply in_map_iff in Hin.
    destruct Hin as (p & Hid & Hp).
    apply map_indexed_In in Hp. destruct Hp as (x' & k & _ & Hk & ->).
    simpl in Hid. injection Hid as Hid.
    apply decimal_injective in Hid. lia.
Qed.

(** X22.  The records converted from the third source are as many as the
    source's, have pairwise distinct ids, one of the four radii 71492,
    47898, 8967 and 6371, a semi-major axis of 1.0 and a period that is not
    zero. *)
Theorem legacy_records_are_canonical (fallbackData : list LegacyPlanet) :
  let converted := loadPlanetData None None (Some fallbackData) in
  array_length converted = array_length fallbackData /\
  NoDup (map id converted) /\
  (forall planet,
     In planet converted ->
     In (radius planet) [71492; 47898; 8967; 6371]%R /\
     orbit_semiMajorAxis planet = Some 1.0%R /\
     (exists p, orbit_period planet = Some p /\ p <> 0%R)).
Proof.
  intros converted. unfold converted. simpl.
  split; [|split].
  - unfold array_length. rewrite map_indexed_length. reflexivity.
  - apply convertLegacy_ids_distinct.
  - intros planet Hin. apply map_indexed_In in Hin.
    destruct Hin as (x & k & _ & _ & ->).
    split; [|split].
    + simpl.
      destruct (legacy_type x =? "Gas Giant")%string; [tauto|].
      destruct (legacy_type x =? "Hot Jupiter")%string; [tauto|].
      destruct (legacy_type x =? "Super-Earth")%string; tauto.
    + reflexivity.
    + eexists. split; [reflexivity|].
      apply or_default_nonzero. lra.
Qed.

Lemma legacy_records_are_canonical_witness :
  let legacy :=
    {| legacy_name := "51 Pegasi b"; legacy_system := "51 Pegasi";
       legacy_type := "Hot Jupiter"; orbitalPeriod := None |} in
  orbit_semiMajorAxis (convertLegacy legacy 0) = Some 1.0%R /\
  exists p, orbit_period (convertLegacy legacy 0) = Some p /\ p <> 0%R.
Proof.
  intros legacy.
  destruct (@legacy_records_are_canonical [legacy]) as (_ & _ & Hall).
  refine (proj2 (Hall (convertLegacy legacy 0) _)).
  left. reflexivity.
Defined.

(** X23.  After [init] the explorer's catalog is empty only when the first
    source that loaded was an empty array, never because sources failed;
    the page displays the first planet of the catalog when there is one and
    nothing otherwise, and the dropdown lists the whole catalog. *)
Theorem catalog_is_empty_only_from_an_empty_source
    (koiData keplerData : option (list Planet))
    (exoplanetData : option (list LegacyPlanet)) :
  let s := init koiData keplerData exoplanetData in
  (planets s = [] <->
   koiData = Some []
   \/ (koiData = None /\ keplerData = Some [])
   \/ (koiData = None /\ keplerData = None /\ exoplanetData = Some [])) /\
  match planets s with
  | [] => currentPlanet s = None /\ planetMesh s = None
  | first :: _ =>
      currentPlanetIndex s = 0 /\ currentPlanet s = Some first /\
      planetMesh s = Some (createPlanet first)
  end /\
  filteredPlanets s = planets s.
Proof.
  intros s.
  assert (Hplanets : planets s
                     = loadPlanetData koiData keplerData exoplanetData).
  { unfold s, init. simpl. destruct (_ >? _); [|reflexivity].
    unfold showPlanet. destruct (_ || _); reflexivity. }
  split; [|split].
  - rewrite Hplanets. unfold loadPlanetData.
    destruct koiData as [[|p l]|].
    + split; [auto|reflexivity].
    + split; [discriminate|].
      intros [H|[[H _]|[H _]]]; discriminate.
    + destruct keplerData as [[|p l]|].
      * split; [auto|reflexivity].
      * split; [discriminate|].
        intros [H|[[_ H]|[_ [H _]]]]; discriminate.
      * destruct exoplanetData as [[|p l]|]; simpl.
        -- split; [auto|reflexivity].
        -- split; [discriminate|].
           intros [H|[[_ H]|[_ [_ H]]]]; discriminate.
        -- split; [discriminate|].
           intros [H|[[_ H]|[_ [_ H]]]]; discriminate.
  - unfold s, init. cbv zeta.
    destruct (loadPlanetData koiData keplerData exoplanetData)
      as [|first rest].
    + split; reflexivity.
    + cbn. repeat split.
  - unfold s, init. simpl. destruct (_ >? _); [|reflexivity].
    unfold showPlanet. destruct (_ || _); reflexivity.
Qed.

Lemma catalog_is_empty_only_from_an_empty_source_witness :
  planets (init (Some []) (Some [kepler22b]) None) = [].
Proof.
  refine (proj2 (proj1 (@catalog_is_empty_only_from_an_empty_source
                          (Some []) (Some [kepler22b]) None)) _).
  left. reflexivity.
Defined.

End LoaderFacts.

Section CompareMoreFacts.

Import Compare.
Open Scope Z_scope.

Lemma lower_ascii_idempotent (c : ascii) :
  lower_ascii (lower_ascii c) = lower_ascii c.
Proof.
  destruct c as [[] [] [] [] [] [] [] []]; reflexivity.
Qed.

Lemma toLowerCase_idempotent (s : string) :
  toLowerCase (toLowerCase s) = toLowerCase s.
Proof.
  induction s as [|c s IH]; simpl.
  - reflexivity.
  - rewrite lower_ascii_idempotent, IH. reflexivity.
Qed.

Lemma includes_empty (s : string) : includes s "" = true.
Proof. destruct s; reflexivity. Qed.

(** X24.  The text search does not depend on the case of the query: a query
    and its lower-case form have the same effect, typed or entered. *)
Theorem search_ignores_the_case_of_the_query (planets : list Planet)
    (viewer : Viewer) (key value : string) :
  searchInput planets viewer (toLowerCase value)
  = searchInput planets viewer value /\
  searchKeypress planets viewer key (toLowerCase value)
  = searchKeypress planets viewer key value.
Proof.
  unfold searchInput, searchKeypress.
  rewrite toLowerCase_idempotent. split; reflexivity.
Qed.

(** X25.  Pressing Enter in an empty search box shows the first planet of a
    non-empty catalog, since the empty query occurs in every name; any other
    key changes nothing, and neither does Enter on an empty catalog. *)
Theorem enter_on_empty_query_shows_first_planet (planets : list Planet)
    (viewer : Viewer) (key : string) (first : Planet)
    (rest : list Planet) :
  planets = first :: rest ->
  currentPlanetIndex (searchKeypress planets viewer "Enter" "") = 0 /\
  currentPlanet (searchKeypress planets viewer "Enter" "") = Some first /\
  (key <> "Enter"%string ->
   forall value, searchKeypress planets viewer key value = viewer) /\
  searchKeypress [] viewer "Enter" "" = viewer.
Proof.
  intros ->. split; [|split; [|split]].
  - unfold searchKeypress, matchesNameOrId. simpl find_position.
    rewrite includes_empty. simpl.
    apply (@compare_showPlanet_in_range (first :: rest) viewer 0 first).
    reflexivity.
  - unfold searchKeypress, matchesNameOrId. simpl find_position.
    rewrite includes_empty. simpl.
    apply (@compare_showPlanet_in_range (first :: rest) viewer 0 first).
    reflexivity.
  - intros Hkey value. unfold searchKeypress.
    apply String.eqb_neq in Hkey. rewrite Hkey. reflexivity.
  - reflexivity.
Qed.

Lemma enter_on_empty_query_shows_first_planet_witness :
  currentPlanet
    (searchKeypress [kepler22b; kepler62f]
       (showPlanet [kepler22b; kepler62f] leftViewer0 1) "Enter" "")
  = Some kepler22b.
Proof.
  refine (proj1 (proj2 (@enter_on_empty_query_shows_first_planet
                          [kepler22b; kepler62f]
                          (showPlanet [kepler22b; kepler62f] leftViewer0 1)
                          "Enter" kepler22b [kepler62f] eq_refl))).
Defined.

(** X26.  The text-search comparison page starts with the first planet on
    the left and, unless displaying it throws in [updatePlanetInfo] and
    ends [init], the second planet on the right.  With a single planet the
    right viewer displays nothing and keeps index 1: [nextPlanet] on it
    changes nothing and [previousPlanet] shows the only planet. *)
Theorem comparison_page_starts_on_first_two_planets
    (koiData keplerData : option (list Planet))
    (exoplanetData : option (list Explorer.LegacyPlanet)) :
  let pg := init koiData keplerData exoplanetData in
  match planets pg with
  | [] =>
      currentPlanet (leftViewer pg) = None /\
      currentPlanet (rightViewer pg) = None
  | [only] =>
      currentPlanet (leftViewer pg) = Some only /\
      currentPlanet (rightViewer pg) = None /\
      currentPlanetIndex (rightViewer pg) = 1 /\
      nextPlanet (planets pg) (rightViewer pg) = rightViewer pg /\
      currentPlanet (previousPlanet (planets pg) (rightViewer pg))
      = Some only
  | first :: second :: _ =>
      currentPlanet (leftViewer pg) = Some first /\
      currentPlanetIndex (leftViewer pg) = 0 /\
      currentPlanetIndex (rightViewer pg) = 1 /\
      (updatePlanetInfo_throws first = false ->
       currentPlanet (rightViewer pg) = Some second) /\
      (updatePlanetInfo_throws first = true ->
       currentPlanet (rightViewer pg) = None)
  end.
Proof.
  intros pg. unfold pg, init. simpl.
  destruct (loadPlanetData koiData keplerData exoplanetData)
    as [|first [|second rest]].
  - split; reflexivity.
  - unfold initAborted, showPlanet_throws. simpl.
    destruct (updatePlanetInfo_throws first); repeat split.
  - assert (H0 : (array_length (first :: second :: rest) >? 0) = true)
      by (apply Z.gtb_lt; unfold array_length; simpl List.length; lia).
    assert (H1 : (array_length (first :: second :: rest) >? 1) = true)
      by (apply Z.gtb_lt; unfold array_length; simpl List.length; lia).
    unfold initAborted, showPlanet_throws.
    rewrite H0, H1, array_get_0.
    destruct (@compare_showPlanet_in_range (first :: second :: rest)
                leftViewer0 0 first eq_refl) as [Hi Hp].
    assert (Hsecond : array_get (first :: second :: rest) 1 = Some second)
      by (rewrite array_get_cons by lia; reflexivity).
    destruct (@compare_showPlanet_in_range (first :: second :: rest)
                rightViewer0 1 second Hsecond) as [Hi' Hp'].
    split; [exact Hp|]. split; [exact Hi|].
    destruct (updatePlanetInfo_throws first); simpl.
    + split; [reflexivity|]. split; [discriminate|reflexivity].
    + split; [exact Hi'|]. split; [intros _; exact Hp'|discriminate].
Qed.

(** The theorem on a catalog of two complete records, and on one whose
    first record has no orbital elements. *)
Lemma comparison_page_starts_on_first_two_planets_witness :
  currentPlanet (rightViewer (init (Some [kepler22b; kepler62f]) None None))
  = Some kepler62f /\
  currentPlanet (rightViewer (init (Some [bareEarth; kepler62f]) None None))
  = None.
Proof.
  split.
  - refine (proj1 (proj2 (proj2 (proj2
      (@comparison_page_starts_on_first_two_planets
         (Some [kepler22b; kepler62f]) None None)))) _).
    reflexivity.
  - refine (proj2 (proj2 (proj2 (proj2
      (@comparison_page_starts_on_first_two_planets
         (Some [bareEarth; kepler62f]) None None)))) _).
    reflexivity.
Defined.

End CompareMoreFacts.

Section ConverterFacts.

Import Explorer ExplorerList.

Lemma determinePlanetType_option (radius : R) :
  In (Converter.determinePlanetType radius) typeOptions.
Proof.
  unfold Converter.determinePlanetType, typeOptions. cbv zeta.
  destruct (Rlt_dec 10 _); [simpl; tauto|].
  destruct (Rlt_dec 4 _); [simpl; tauto|].
  destruct (Rlt_dec 2 _); [simpl; tauto|].
  destruct (Rlt_dec 1.5 _); simpl; tauto.
Qed.

Lemma filter_type_cons (tag : string) (p : Planet) (l : list Planet) :
  array_length (filter (fun q => (type q =? tag)%string) (p :: l))
  = ((if (type p =? tag)%string then 1 else 0)
     + array_length (filter (fun q => (type q =? tag)%string) l))%Z.
Proof.
  unfold array_length. simpl filter.
  destruct (type p =? tag)%string; simpl List.length; lia.
Qed.

Lemma type_partition (l : list Planet) :
  Forall (fun p => In (type p) typeOptions) l ->
  fold_right Z.add 0%Z
    (map (fun tag =>
            array_length (filter (fun p => (type p =? tag)%string) l))
         typeOptions)
  = array_length l.
Proof.
  induction 1 as [|p l Hp _ IH].
  - reflexivity.
  - unfold typeOptions in *. cbn [map fold_right] in *.
    rewrite !filter_type_cons.
    assert (Hlen : array_length (p :: l) = (1 + array_length l)%Z)
      by (unfold array_length; simpl List.length; lia).
    rewrite Hlen, <- IH.
    simpl in Hp.
    decompose [or] Hp; try contradiction;
      match goal with H : _ = type p |- _ => rewrite <- H end;
      cbn [String.eqb Ascii.eqb Bool.eqb]; lia.
Qed.

Lemma changeTypeFilter_list (s : State) (tag : string) :
  In tag typeOptions ->
  filteredPlanets (changeTypeFilter s tag)
  = filter (fun p => (type p =? tag)%string) (planets s).
Proof.
  intros Htag.
  assert (Hnot_all : (tag =? "all")%string = false).
  { simpl in Htag. decompose [or] Htag; subst; try reflexivity.
    contradiction. }
  unfold changeTypeFilter, applyFilter. simpl. rewrite Hnot_all.
  reflexivity.
Qed.

(** X27.  When every planet's type is the one the converter derives from its
    radius, the five type filters of the explorer list every planet exactly
    once: their lengths add up to the size of the catalog, and each planet
    is in the list of its own type. *)
Theorem converter_types_are_the_filter_options (s : State) :
  Forall (fun p => type p = Converter.determinePlanetType (radius p))
         (planets s) ->
  fold_right Z.add 0%Z
    (map (fun tag =>
            array_length (filteredPlanets (changeTypeFilter s tag)))
         typeOptions)
  = array_length (planets s) /\
  (forall planet,
     In planet (planets s) ->
     In planet (filteredPlanets (changeTypeFilter s (type planet)))).
Proof.
  intros Hconv.
  assert (Htypes : Forall (fun p => In (type p) typeOptions) (planets s)).
  { eapply Forall_impl; [|exact Hconv]. intros p ->.
    apply determinePlanetType_option. }
  split.
  - rewrite <- (type_partition Htypes).
    unfold typeOptions. cbn [map fold_right].
    rewrite !changeTypeFilter_list by (simpl; tauto). reflexivity.
  - intros planet Hin.
    rewrite Forall_forall in Htypes. specialize (Htypes planet Hin).
    rewrite changeTypeFilter_list by assumption.
    apply filter_In. split; [exact Hin|apply String.eqb_refl].
Qed.

Lemma converter_types_are_the_filter_options_witness :
  let s := init (Some [grazer; farOut; earth; jupiter]) None None in
  In farOut (filteredPlanets (changeTypeFilter s "Gas Giant")).
Proof.
  intros s.
  destruct (@converter_types_are_the_filter_options s) as [_ Hin].
  - assert (Htype : forall p,
              In p [grazer; farOut; earth; jupiter] ->
              type p = Converter.determinePlanetType (radius p)).
    { intros p Hp. unfold Converter.determinePlanetType. cbv zeta.
      simpl in Hp. decompose [or] Hp; try contradiction; subst p; simpl;
        repeat match goal with
               | |- context [Rlt_dec ?a ?b] =>
                   destruct (Rlt_dec a b); try lra
               end; reflexivity. }
    apply Forall_forall. exact Htype.
  - apply (Hin farOut). simpl. tauto.
Defined.

End ConverterFacts.

Section SystemViewFacts.

Import SystemView.
Open Scope R_scope.

Lemma cube_monotone (x y : R) : x <= y -> x * x * x <= y * y * y.
Proof.
  intros H.
  assert (0 <= (y - x) * (x * x + x * y + y * y)).
  { apply Rmult_le_pos; [lra|]. nra. }
  nra.
Qed.

(** X28.  [easeInOutCubic] maps 0, 0.5 and 1 to themselves, maps [0,1] into
    [0,1], is symmetric about the midpoint and never decreases. *)
Theorem easing_is_a_monotone_map_of_the_unit_interval :
  easeInOutCubic 0 = 0 /\
  easeInOutCubic 0.5 = 0.5 /\
  easeInOutCubic 1 = 1 /\
  (forall t, 0 <= t <= 1 -> 0 <= easeInOutCubic t <= 1) /\
  (forall t, easeInOutCubic (1 - t) = 1 - easeInOutCubic t) /\
  (forall t u, t <= u -> easeInOutCubic t <= easeInOutCubic u).
Proof.
  assert (Hlow : forall t, t < 0.5 -> easeInOutCubic t = 4 * (t * t * t)).
  { intros t Ht. unfold easeInOutCubic.
    destruct (Rlt_dec t 0.5); [ring|contradiction]. }
  assert (Hhigh : forall t, 0.5 <= t ->
            easeInOutCubic t = 1 - 4 * ((1 - t) * (1 - t) * (1 - t))).
  { intros t Ht. unfold easeInOutCubic.
    destruct (Rlt_dec t 0.5); [lra|]. simpl. field. }
  split; [rewrite Hlow by lra; ring|].
  split; [rewrite Hhigh by lra; lra|].
  split; [rewrite Hhigh by lra; ring|].
  split; [|split].
  - intros t [H0 H1]. destruct (Rlt_dec t 0.5) as [Ht|Ht].
    + rewrite Hlow by assumption.
      pose proof (cube_monotone H0) as Hc0.
      pose proof (@cube_monotone t 0.5 ltac:(lra)) as Hc1. lra.
    + rewrite Hhigh by lra.
      pose proof (@cube_monotone 0 (1 - t) ltac:(lra)) as Hc0.
      pose proof (@cube_monotone (1 - t) 0.5 ltac:(lra)) as Hc1. lra.
  - intros t. destruct (Rlt_dec t 0.5) as [Ht|Ht].
    + rewrite (Hhigh (1 - t)) by lra. rewrite Hlow by assumption.
      replace (1 - (1 - t)) with t by ring. ring.
    + destruct (Req_dec_T t 0.5) as [->|Hne].
      * replace (1 - 0.5) with 0.5 by lra. rewrite Hhigh by lra. lra.
      * rewrite (Hlow (1 - t)) by lra. rewrite Hhigh by lra. ring.
  - intros t u Htu.
    destruct (Rlt_dec t 0.5) as [Ht|Ht];
      destruct (Rlt_dec u 0.5) as [Hu|Hu].
    + rewrite !Hlow by assumption. pose proof (cube_monotone Htu). lra.
    + rewrite Hlow by assumption. rewrite Hhigh by lra.
      pose proof (@cube_monotone t 0.5 ltac:(lra)).
      pose proof (@cube_monotone (1 - u) 0.5 ltac:(lra)). lra.
    + lra.
    + rewrite !Hhigh by lra.
      pose proof (@cube_monotone (1 - u) (1 - t) ltac:(lra)). lra.
Qed.

Lemma easing_is_a_monotone_map_of_the_unit_interval_witness :
  0 <= easeInOutCubic 0.25 <= 1 /\
  easeInOutCubic 0.25 <= easeInOutCubic 0.75.
Proof.
  destruct easing_is_a_monotone_map_of_the_unit_interval
    as (_ & _ & _ & Hrange & _ & Hmono).
  split; [apply Hrange|apply Hmono]; lra.
Defined.

End SystemViewFacts.
